(** * Media-stream session engine of the call scheduler: model and properties

    A shallow embedding of the real-time audio part of the server
    (the mu-law codec, the frame pacer [sendMedia], the outcome classifier
    [analyzeOutcome] and the per-connection WebSocket / speech-to-text
    handlers), followed by the properties established about it.

    Conventions.
    - A [Buffer] is a list of bytes, each byte a [Z] in [0, 255].
    - JavaScript numbers that stay small integers are [Z]; the 32-bit
      bitwise operators are [Z.land], [Z.lor], [Z.lnot], [Z.shiftl] and
      [Z.shiftr], which agree with them on the values that occur here.
    - Text is [string]; case conversion, trimming and the regular
      expressions are modelled on ASCII text.
    - Asynchronous handlers are cut at their [await] points: each piece
      between two awaits is one atomic step of the server, and the awaited
      answers of the collaborators are inputs of the step function. *)

From Stdlib Require Import ZArith Lia Bool Ascii String List.
From stdpp Require Import base option list gmap strings.
Import ListNotations.

(** ** Audio codec *)

Module Codec.
Local Open Scope Z_scope.

Definition BIAS : Z := 0x84.
Definition CLIP : Z := 32635.

(** [buf.readInt16LE(i)] on the two bytes at [i] and [i+1]. *)
Definition readInt16LE (lo hi : Z) : Z :=
  let u := Z.lor lo (Z.shiftl hi 8) in
  if 32768 <=? u then u - 65536 else u.

(** [buf.writeInt16LE(v, i)] for [v] in the signed 16-bit range: the two
    bytes written. *)
Definition writeInt16LE (v : Z) : list Z :=
  [Z.land v 0xFF; Z.land (Z.shiftr v 8) 0xFF].

(** The segment search of [linear16ToMuLaw]:
    [for (exp = 0x4000; exp > 0 && (sample & exp) === 0; exp >>= 1, exponent--) { }].
    The mask reaches zero after fifteen shifts, so sixteen rounds are
    always enough (see [findExponent_fuel]). *)
Fixpoint segmentLoop (fuel : nat) (sample exp exponent : Z) : Z :=
  match fuel with
  | O => exponent
  | S fuel' =>
      if (0 <? exp) && (Z.land sample exp =? 0)
      then segmentLoop fuel' sample (Z.shiftr exp 1) (exponent - 1)
      else exponent
  end.

Definition findExponent (sample : Z) : Z := segmentLoop 16 sample 0x4000 7.

(** Body of the loop of [linear16ToMuLaw] for one sample. *)
Definition encodeSample (sample0 : Z) : Z :=
  let sign := if sample0 <? 0 then 0x80 else 0x00 in
  let sample1 := if sample0 <? 0 then - sample0 else sample0 in
  let sample2 := if CLIP <? sample1 then CLIP else sample1 in
  let sample := sample2 + BIAS in
  let exponent := findExponent sample in
  let mantissa := Z.land (Z.shiftr sample (exponent + 3)) 0x0F in
  let muLaw := Z.lnot (Z.lor (Z.lor sign (Z.shiftl exponent 4)) mantissa) in
  Z.land muLaw 0xFF.

(** [linear16ToMuLaw]: [None] is the [RangeError] that [readInt16LE]
    raises when the last sample has only one byte. *)
Fixpoint linear16ToMuLaw (pcm16Buffer : list Z) : option (list Z) :=
  match pcm16Buffer with
  | [] => Some []
  | [_] => None
  | lo :: hi :: rest =>
      match linear16ToMuLaw rest with
      | Some out => Some (encodeSample (readInt16LE lo hi) :: out)
      | None => None
      end
  end.

(** Body of the loop of [muLawTo16BitPCM] for one byte. *)
Definition decodeSample (mulaw0 : Z) : Z :=
  let mulaw := Z.lnot mulaw0 in
  let sign := if Z.land mulaw 0x80 =? 0 then 1 else -1 in
  let exponent := Z.land (Z.shiftr mulaw 4) 0x07 in
  let mantissa := Z.land mulaw 0x0f in
  let sample0 :=
    (Z.shiftl 1 (exponent + 1) * (mantissa + 16) + Z.shiftl 1 exponent - 1 - 0x84)
    * sign in
  let sample1 := if 32767 <? sample0 then 32767 else sample0 in
  let sample := if sample1 <? -32768 then -32768 else sample1 in
  sample.

Definition muLawTo16BitPCM (muLawBuffer : list Z) : list Z :=
  flat_map (fun b => writeInt16LE (decodeSample b)) muLawBuffer.

(** The quantization step of the segment a sample falls in, on the 16-bit
    scale: 8 in segment 0, doubling up to 1024 in segment 7. *)
Definition quantStep (x : Z) : Z :=
  let m0 := if x <? 0 then - x else x in
  let m := if CLIP <? m0 then CLIP else m0 in
  Z.shiftl 8 (findExponent (m + BIAS)).

Definition int16 (x : Z) : Prop := -32768 <= x <= 32767.

(** [count] consecutive integers from [start]. *)
Fixpoint zrange (count : nat) (start : Z) : list Z :=
  match count with
  | O => []
  | S count' => start :: zrange count' (start + 1)
  end.

(** The signed 16-bit samples, in order. *)
Definition allSamples : list Z := zrange (Z.to_nat 65536) (-32768).

(** Whether the round trip of [x] stays within the step of its segment. *)
Definition withinStep (x : Z) : bool :=
  Z.abs (decodeSample (encodeSample x) - x) <=? quantStep x.

End Codec.

(** ** Text helpers (ASCII) *)

Module Text.

Definition isUpper (c : ascii) : bool :=
  let n := nat_of_ascii c in Nat.leb 65 n && Nat.leb n 90.
Definition isLower (c : ascii) : bool :=
  let n := nat_of_ascii c in Nat.leb 97 n && Nat.leb n 122.
Definition isDigit (c : ascii) : bool :=
  let n := nat_of_ascii c in Nat.leb 48 n && Nat.leb n 57.
(** The characters [\s] and [trim] treat as white space. *)
Definition isSpace (c : ascii) : bool :=
  let n := nat_of_ascii c in Nat.eqb n 32 || (Nat.leb 9 n && Nat.leb n 13).
(** The characters [\b] and [\w] treat as word characters. *)
Definition isWordChar (c : ascii) : bool :=
  isUpper c || isLower c || isDigit c || Ascii.eqb c "_".

Definition toLowerChar (c : ascii) : ascii :=
  if isUpper c then ascii_of_nat (nat_of_ascii c + 32) else c.
Definition toUpperChar (c : ascii) : ascii :=
  if isLower c then ascii_of_nat (nat_of_ascii c - 32) else c.

Fixpoint mapString (f : ascii -> ascii) (s : string) : string :=
  match s with
  | EmptyString => EmptyString
  | String c s' => String (f c) (mapString f s')
  end.

Definition toLowerCase : string -> string := mapString toLowerChar.
Definition toUpperCase : string -> string := mapString toUpperChar.

Fixpoint trimStart (s : string) : string :=
  match s with
  | String c s' => if isSpace c then trimStart s' else s
  | EmptyString => EmptyString
  end.

(** [trimEnd] keeps a character when it is not white space or when
    something is kept after it. *)
Fixpoint trimEnd (s : string) : string :=
  match s with
  | EmptyString => EmptyString
  | String c s' =>
      match trimEnd s' with
      | EmptyString => if isSpace c then EmptyString else String c EmptyString
      | t => String c t
      end
  end.

Definition trim (s : string) : string := trimEnd (trimStart s).

(** Truthiness of a JavaScript string: the empty string is falsy. *)
Definition truthy (s : string) : bool :=
  match s with EmptyString => false | _ => true end.

(** Truthiness of a value that is [null]/[undefined] or a string. *)
Definition truthyOpt (o : option string) : bool :=
  match o with Some s => truthy s | None => false end.

Fixpoint startsWith (s p : string) : bool :=
  match p, s with
  | EmptyString, _ => true
  | String a p', String b s' => Ascii.eqb a b && startsWith s' p'
  | String _ _, EmptyString => false
  end.

(** [s.includes(sub)] *)
Fixpoint includes (s sub : string) : bool :=
  startsWith s sub ||
  match s with
  | EmptyString => false
  | String _ s' => includes s' sub
  end.

(** [s.replace(/\./g, '')] *)
Fixpoint removeDots (s : string) : string :=
  match s with
  | EmptyString => EmptyString
  | String c s' => if Ascii.eqb c "." then removeDots s' else String c (removeDots s')
  end.

(** [s.charAt(0).toUpperCase() + s.slice(1).toLowerCase()] *)
Definition capitalize (s : string) : string :=
  match s with
  | EmptyString => EmptyString
  | String c s' => String (toUpperChar c) (toLowerCase s')
  end.

End Text.

(** ** Regular expressions

    The fragment of JavaScript regular expressions the classifier uses,
    with the backtracking semantics of [String.prototype.match] on a
    pattern without the [g] flag: leftmost match, alternatives tried in
    order, greedy quantifiers. Every pattern of the source carries the [i]
    flag, so literal characters are compared up to ASCII case. *)

Module Regex.
Import Text.

Inductive regex :=
| RFail                          (* matches nothing *)
| REps                           (* matches the empty string *)
| RChar (c : ascii)              (* a literal character *)
| RDigit                         (* \d *)
| RSpace                         (* \s *)
| RWordB                         (* \b *)
| RSeq (r1 r2 : regex)
| RAlt (r1 r2 : regex)           (* r1|r2 *)
| ROpt (r : regex)               (* r? *)
| RStar (r : regex)              (* r* *)
| RGroup (n : nat) (r : regex).  (* the n-th capturing group *)

(** A literal word. *)
Fixpoint RStr (s : string) : regex :=
  match s with
  | EmptyString => REps
  | String c s' => RSeq (RChar c) (RStr s')
  end.

(** [w1|w2|...] *)
Fixpoint ROneOf (rs : list regex) : regex :=
  match rs with
  | [] => RFail
  | [r] => r
  | r :: rs' => RAlt r (ROneOf rs')
  end.

(** Matcher state: the character before the current position (for [\b]),
    the rest of the input, and the captures made so far. *)
Record MState := {
  prev : option ascii;
  rest : list ascii;
  caps : list (nat * list ascii)
}.

Definition advance (st : MState) (x : ascii) (xs : list ascii) : MState :=
  {| prev := Some x; rest := xs; caps := caps st |}.

Definition setCap (n : nat) (st0 st1 : MState) : MState :=
  {| prev := prev st1; rest := rest st1;
     caps := (n, take (length (rest st0) - length (rest st1)) (rest st0)) :: caps st1 |}.

Definition isWordOpt (o : option ascii) : bool :=
  match o with Some c => isWordChar c | None => false end.

Definition atWordBoundary (st : MState) : bool :=
  xorb (isWordOpt (prev st)) (isWordOpt (head (rest st))).

Definition step1 {A} (p : ascii -> bool) (st : MState) (k : MState -> option A) : option A :=
  match rest st with
  | x :: xs => if p x then k (advance st x xs) else None
  | [] => None
  end.

(** Backtracking matcher in continuation-passing style: [k] is what must
    still match after [r]. An iteration of [r*] that consumes nothing is
    rejected, as in ECMAScript, so the star runs at most once per
    remaining character. *)
Fixpoint matchR {A} (r : regex) (st : MState) (k : MState -> option A) : option A :=
  match r with
  | RFail => None
  | REps => k st
  | RChar c => step1 (fun x => Ascii.eqb (toLowerChar x) (toLowerChar c)) st k
  | RDigit => step1 isDigit st k
  | RSpace => step1 isSpace st k
  | RWordB => if atWordBoundary st then k st else None
  | RSeq r1 r2 => matchR r1 st (fun st1 => matchR r2 st1 k)
  | RAlt r1 r2 =>
      match matchR r1 st k with
      | Some a => Some a
      | None => matchR r2 st k
      end
  | ROpt r1 =>
      match matchR r1 st k with
      | Some a => Some a
      | None => k st
      end
  | RStar r1 =>
      (fix star (n : nat) (st : MState) : option A :=
         match n with
         | O => k st
         | S n' =>
             match matchR r1 st (fun st1 =>
                     if Nat.ltb (length (rest st1)) (length (rest st))
                     then star n' st1 else None) with
             | Some a => Some a
             | None => k st
             end
         end) (S (length (rest st))) st
  | RGroup n r1 => matchR r1 st (fun st1 => k (setCap n st st1))
  end.

(** Try every start position from the left. *)
Fixpoint searchFrom (r : regex) (before : option ascii) (input : list ascii)
  : option (list (nat * list ascii)) :=
  match matchR r {| prev := before; rest := input; caps := [] |}
               (fun st => Some (caps st)) with
  | Some c => Some c
  | None =>
      match input with
      | [] => None
      | x :: xs => searchFrom r (Some x) xs
      end
  end.

(** [s.match(r)]: the captures of the first match, or [None] for [null]. *)
Definition regexMatch (s : string) (r : regex) : option (list (nat * list ascii)) :=
  searchFrom r None (list_ascii_of_string s).

Definition matches (s : string) (r : regex) : bool :=
  match regexMatch s r with Some _ => true | None => false end.

(** [m[n]] for a capturing group that took part in the match. *)
Fixpoint capture (n : nat) (cs : list (nat * list ascii)) : string :=
  match cs with
  | [] => EmptyString
  | (i, v) :: cs' => if Nat.eqb i n then string_of_list_ascii v else capture n cs'
  end.

End Regex.

(** ** Outcome classifier *)

Module Classifier.
Import Text Regex.
Local Open Scope string_scope.

Inductive OutcomeType := scheduled | hangup | irrelevant.

(** [{ type, details }]; [None] is JavaScript's [null]. *)
Record Outcome := {
  type : option OutcomeType;
  details : option string
}.

Definition words (ws : list string) : regex := ROneOf (map RStr ws).

(** [\b(monday|tuesday|wednesday|thursday|friday|saturday|sunday)\b] *)
Definition dayPattern : regex :=
  RSeq RWordB (RSeq (RGroup 1 (words ["monday"; "tuesday"; "wednesday"; "thursday";
                                       "friday"; "saturday"; "sunday"])) RWordB).

(** [(am|pm|a\.m\.|p\.m\.)] as group 2 *)
Definition meridiem : regex := RGroup 2 (words ["am"; "pm"; "a.m."; "p.m."]).

(** [\b(\d{1,2})\s*(am|pm|a\.m\.|p\.m\.)\b] *)
Definition hourPattern : regex :=
  RSeq RWordB (RSeq (RGroup 1 (RSeq RDigit (ROpt RDigit)))
              (RSeq (RStar RSpace) (RSeq meridiem RWordB))).

(** [\b(morning|afternoon|evening)\b] *)
Definition dayPartPattern : regex :=
  RSeq RWordB (RSeq (RGroup 1 (words ["morning"; "afternoon"; "evening"])) RWordB).

(** [scheduled|booked|confirmed|set up|looking forward] *)
Definition confirmPattern : regex :=
  words ["scheduled"; "booked"; "confirmed"; "set up"; "looking forward"].

Definition schedulePatterns : list regex :=
  [dayPattern; hourPattern; dayPartPattern; confirmPattern].

(** [not interested|no thanks|don't call|remove me|not a good time|busy]
    and [never call|stop calling|leave me alone] *)
Definition rejectionPatterns : list regex :=
  [words ["not interested"; "no thanks"; "don't call"; "remove me";
          "not a good time"; "busy"];
   words ["never call"; "stop calling"; "leave me alone"]].

(** [\b(\d{1,2}(?::\d{2})?)\s*(am|pm|a\.m\.|p\.m\.)\b] *)
Definition timePattern : regex :=
  RSeq RWordB
    (RSeq (RGroup 1 (RSeq (RSeq RDigit (ROpt RDigit))
                          (ROpt (RSeq (RChar ":") (RSeq RDigit RDigit)))))
          (RSeq (RStar RSpace) (RSeq meridiem RWordB))).

Definition extractSchedulingDetails (userTranscript aiResponse : string) : string :=
  let combined := userTranscript ++ " " ++ aiResponse in
  let dayMatch := regexMatch combined dayPattern in
  let timeMatch := regexMatch combined timePattern in
  match dayMatch, timeMatch with
  | Some dm, Some tm =>
      let day := capitalize (capture 1 dm) in
      let time := capture 1 tm ++ " " ++ removeDots (toUpperCase (capture 2 tm)) in
      day ++ " " ++ time
  | Some dm, None => capitalize (capture 1 dm)
  | None, Some tm =>
      capture 1 tm ++ " " ++ removeDots (toUpperCase (capture 2 tm))
  | None, None => "Meeting scheduled"
  end.

(** The loop over [schedulePatterns]: the first pattern found in the reply
    or in the utterance fixes [schedulingDetails] and ends the loop. *)
Fixpoint scheduleScan (patterns : list regex) (userTranscript aiResponse : string)
  : option string :=
  match patterns with
  | [] => None
  | pattern :: patterns' =>
      if matches aiResponse pattern || matches userTranscript pattern
      then Some (extractSchedulingDetails userTranscript aiResponse)
      else scheduleScan patterns' userTranscript aiResponse
  end.

Definition analyzeOutcome (userTranscript aiResponse : string) : Outcome :=
  let userLower := toLowerCase userTranscript in
  let aiLower := toLowerCase aiResponse in
  if includes aiLower "hangup" then
    let schedulingDetails := scheduleScan schedulePatterns userTranscript aiResponse in
    if truthyOpt schedulingDetails then
      {| type := Some scheduled; details := schedulingDetails |}
    else if existsb (matches userLower) rejectionPatterns then
      {| type := Some irrelevant; details := Some "Lead declined" |}
    else
      {| type := Some hangup; details := Some "Call ended" |}
  else
    {| type := None; details := None |}.

End Classifier.

(** ** Sessions, frames and the frame pacer *)

Module Server.
Import Text Codec Classifier.
Local Open Scope string_scope.

Abbreviation SessionId := string.

(** The object stored by [sessions.set(sessionId, { ... })]. Its [ws] and
    [recognizeStream] fields are the connection's socket and recognizer,
    which the model reaches through the session id. *)
Record Session := {
  transcripts : list string;
  closed : bool;
  acceptedFirstMedia : bool;
  streamSid : option string;
  callSid : option string;
  isPlaying : bool;
  outcome : option Outcome
}.

Definition newSession : Session :=
  {| transcripts := []; closed := false; acceptedFirstMedia := false;
     streamSid := None; callSid := None; isPlaying := false; outcome := None |}.

Definition push_transcript (t : string) (s : Session) : Session :=
  {| transcripts := transcripts s ++ [t]; closed := closed s;
     acceptedFirstMedia := acceptedFirstMedia s; streamSid := streamSid s;
     callSid := callSid s; isPlaying := isPlaying s; outcome := outcome s |}.
Definition set_closed (b : bool) (s : Session) : Session :=
  {| transcripts := transcripts s; closed := b;
     acceptedFirstMedia := acceptedFirstMedia s; streamSid := streamSid s;
     callSid := callSid s; isPlaying := isPlaying s; outcome := outcome s |}.
Definition set_acceptedFirstMedia (b : bool) (s : Session) : Session :=
  {| transcripts := transcripts s; closed := closed s;
     acceptedFirstMedia := b; streamSid := streamSid s;
     callSid := callSid s; isPlaying := isPlaying s; outcome := outcome s |}.
Definition set_streamSid (v : option string) (s : Session) : Session :=
  {| transcripts := transcripts s; closed := closed s;
     acceptedFirstMedia := acceptedFirstMedia s; streamSid := v;
     callSid := callSid s; isPlaying := isPlaying s; outcome := outcome s |}.
Definition set_callSid (v : option string) (s : Session) : Session :=
  {| transcripts := transcripts s; closed := closed s;
     acceptedFirstMedia := acceptedFirstMedia s; streamSid := streamSid s;
     callSid := v; isPlaying := isPlaying s; outcome := outcome s |}.
Definition set_isPlaying (b : bool) (s : Session) : Session :=
  {| transcripts := transcripts s; closed := closed s;
     acceptedFirstMedia := acceptedFirstMedia s; streamSid := streamSid s;
     callSid := callSid s; isPlaying := b; outcome := outcome s |}.
Definition set_outcome (o : option Outcome) (s : Session) : Session :=
  {| transcripts := transcripts s; closed := closed s;
     acceptedFirstMedia := acceptedFirstMedia s; streamSid := streamSid s;
     callSid := callSid s; isPlaying := isPlaying s; outcome := o |}.

(** An outbound message
    [{ event: 'media', streamSid, media: { payload } }]; the [streamSid]
    key is absent when [frameStreamSid] is [None]. The payload is kept as
    bytes (base64 and JSON encoding are left out). *)
Record Frame := {
  frameStreamSid : option string;
  payload : list Z
}.

(** What one round of the send loop sees of the socket: [ws.readyState]
    at the check, and whether [ws.send] throws. (The connection handler
    wraps [send] of its sockets so that it swallows exceptions; the loop
    guards against a throwing [send] all the same.) *)
Record SinkObs := {
  readyState : Z;
  sendThrows : bool
}.

Definition sinkOpen : SinkObs := {| readyState := 1; sendThrows := false |}.

Definition chunkSize : nat := 160.

Definition mediaMessage (streamSid : option string) (slice : list Z) : Frame :=
  if truthyOpt streamSid
  then {| frameStreamSid := streamSid; payload := slice |}
  else {| frameStreamSid := None; payload := slice |}.

(** The chunking loop of [sendMedia]. [sink n] is what the round that
    follows [n] sent chunks observes. [None] only when the fuel is used
    up, which does not happen with the fuel [sendMediaRun] gives (lemma
    [sendLoop_terminates]). The sleep up to the deadline
    [startTime + sentChunks * chunkMs] at the end of each round changes
    no data and is not represented. *)
Fixpoint sendLoop (fuel : nat) (sink : nat -> SinkObs) (muLaw : list Z)
    (streamSid : option string) (offset sentChunks : nat) : option (list Frame) :=
  match fuel with
  | O => None
  | S fuel' =>
      if Nat.ltb offset (length muLaw) then
        let slice := take chunkSize (drop offset muLaw) in
        let message := mediaMessage streamSid slice in
        if negb (Z.eqb (readyState (sink sentChunks)) 1) then Some []
        else if sendThrows (sink sentChunks) then Some []
        else
          match sendLoop fuel' sink muLaw streamSid (offset + chunkSize) (S sentChunks) with
          | Some frames => Some (message :: frames)
          | None => None
          end
      else Some []
  end.

(** [sendMedia] up to the start of its loop. *)
Inductive SendJob :=
| JobReturned                    (* the guard on [ws] and [pcmBuffer] returned *)
| JobRaised                      (* the encoder threw; the outer catch logged it *)
| JobLoop (muLaw : list Z) (streamSid : option string).

(** What a call of [sendMedia] did: the frames handed to [ws.send], in
    order, and whether its outer [catch] logged an error. The call itself
    never throws. *)
Record SendResult := {
  sent : list Frame;
  loggedError : bool
}.

Definition sendMediaRun (job : SendJob) (sink : nat -> SinkObs) : SendResult :=
  match job with
  | JobReturned => {| sent := []; loggedError := false |}
  | JobRaised => {| sent := []; loggedError := true |}
  | JobLoop muLaw streamSid =>
      {| sent := default [] (sendLoop (S (length muLaw)) sink muLaw streamSid 0 0);
         loggedError := false |}
  end.

(** ** Server state *)

(** The variables a connection's handlers close over. *)
Record Conn := {
  leadName : string;
  leadPhone : string
}.

(** An entry of the [calls] map; only its [outcome] field is written by
    the media-stream handlers. *)
Record CallEntry := {
  entryOutcome : option Outcome
}.

(** The answer of an awaited collaborator call. *)
Inductive Answer (A : Type) :=
| Resolved (a : A)
| Rejected.
Arguments Resolved {A} a.
Arguments Rejected {A}.

(** A handler suspended at an [await]. *)
Inductive Task :=
| TDone
| TurnAwaitAI (sid : SessionId) (transcript : string)
| TurnAwaitTTS (sid : SessionId)
| TurnAwaitSend (sid : SessionId) (job : SendJob)
| GreetAwaitTTS (sid : SessionId)
| GreetAwaitSend (sid : SessionId) (job : SendJob)
| StopAwaitTTS (sid : SessionId)
| StopAwaitSend (sid : SessionId) (job : SendJob).

(** Calls made to the collaborators, in order. *)
Inductive Effect :=
| FxInference (transcript leadName leadPhone : string)   (* getAIResponse *)
| FxSynthesize (text : string)                           (* synthesizeSpeech *)
| FxPlayback (sid : SessionId) (r : SendResult)          (* a finished sendMedia *)
| FxRecognizerWrite (sid : SessionId) (pcm16 : list Z)   (* recognizeStream.write *)
| FxRecognizerEnd (sid : SessionId).                     (* recognizeStream.end *)

(** [heap] holds every session object ever created, under the id it was
    registered with (each connection draws a fresh uuid, so an id names
    one object); [sessions] is the key set of the [sessions] map. A task
    that fetched its session before [sessions.delete] still reaches the
    object through [heap]. *)
Record State := {
  heap : gmap string Session;
  sessions : gset string;
  conns : gmap string Conn;
  calls : gmap string CallEntry;
  tasks : list Task;
  effects : list Effect
}.

Definition initial : State :=
  {| heap := ∅; sessions := ∅; conns := ∅; calls := ∅; tasks := []; effects := [] |}.

(** [sessions.get(sessionId)] *)
Definition sessions_get (sv : State) (sid : SessionId) : option Session :=
  if decide (sid ∈ sessions sv) then heap sv !! sid else None.

Definition sessions_delete (sid : SessionId) (sv : State) : State :=
  {| heap := heap sv; sessions := sessions sv ∖ {[sid]}; conns := conns sv;
     calls := calls sv; tasks := tasks sv; effects := effects sv |}.

(** A write to a field of the session object [sid]. *)
Definition updSession (sid : SessionId) (f : Session -> Session) (sv : State) : State :=
  {| heap := alter f sid (heap sv); sessions := sessions sv; conns := conns sv;
     calls := calls sv; tasks := tasks sv; effects := effects sv |}.

Definition setCalls (c : gmap string CallEntry) (sv : State) : State :=
  {| heap := heap sv; sessions := sessions sv; conns := conns sv;
     calls := c; tasks := tasks sv; effects := effects sv |}.

Definition emit (e : Effect) (sv : State) : State :=
  {| heap := heap sv; sessions := sessions sv; conns := conns sv;
     calls := calls sv; tasks := tasks sv; effects := effects sv ++ [e] |}.

Definition addTask (t : Task) (sv : State) : State :=
  {| heap := heap sv; sessions := sessions sv; conns := conns sv;
     calls := calls sv; tasks := tasks sv ++ [t]; effects := effects sv |}.

Definition setTask (i : nat) (t : Task) (sv : State) : State :=
  {| heap := heap sv; sessions := sessions sv; conns := conns sv;
     calls := calls sv; tasks := <[i := t]> (tasks sv); effects := effects sv |}.

(** The guard [sess && sess.isPlaying] of the transcript handler. *)
Definition playbackActive (sv : State) (sid : SessionId) : bool :=
  match sessions_get sv sid with
  | Some sess => isPlaying sess
  | None => false
  end.

(** [sendMedia(ws, pcmBuffer)] up to its loop; [ws] is identified by its
    [_sessionId]. *)
Definition sendMediaPrepare (sv : State) (ws : option SessionId)
    (pcmBuffer : option (list Z)) : SendJob :=
  match ws, pcmBuffer with
  | Some wsId, Some pcm =>
      if Nat.eqb (length pcm) 0 then JobReturned
      else
        match linear16ToMuLaw pcm with
        | None => JobRaised
        | Some muLaw =>
            let streamSid :=
              match sessions_get sv wsId with
              | Some sess => streamSid sess
              | None => None
              end in
            JobLoop muLaw streamSid
        end
  | _, _ => JobReturned
  end.

(** A whole call of [sendMedia]. *)
Definition sendMedia (sv : State) (ws : option SessionId)
    (pcmBuffer : option (list Z)) (sink : nat -> SinkObs) : SendResult :=
  sendMediaRun (sendMediaPrepare sv ws pcmBuffer) sink.

(** ** Handlers *)

Definition greetingText (leadName : string) : string :=
  "Hi " ++ leadName ++ ", this is Alex calling from Alti. We help companies automate their outbound calling and booking processes. I'd love to schedule a quick 15-minute call with one of our senior account managers to show you how we can help. Does later this week work for you?".

Definition fallbackText : string :=
  "I'm sorry, I didn't hear you. Can you repeat that?".

(** [wss.on('connection')]: registers a fresh session under a fresh id. *)
Definition onConnection (sid : SessionId) (name phone : string) (sv : State) : State :=
  match heap sv !! sid with
  | Some _ => sv
  | None =>
      {| heap := <[sid := newSession]> (heap sv);
         sessions := {[sid]} ∪ sessions sv;
         conns := <[sid := {| leadName := name; leadPhone := phone |}]> (conns sv);
         calls := calls sv; tasks := tasks sv; effects := effects sv |}
  end.

(** The recognizer's ['data'] handler, up to its first [await]. *)
Definition onSttData (sid : SessionId) (transcript : string) (isFinal : bool)
    (sv : State) : State :=
  match conns sv !! sid with
  | None => sv
  | Some conn =>
      let sess := sessions_get sv sid in
      if isFinal && truthy transcript && truthy (trim transcript) then
        match sess with
        | None => sv       (* sess.transcripts throws; swallowed by catch (e) { } *)
        | Some s =>
            let sv1 := updSession sid (push_transcript (trim transcript)) sv in
            if isPlaying s then sv1          (* audio already playing: return *)
            else
              let sv2 := updSession sid (set_isPlaying true) sv1 in
              addTask (TurnAwaitAI sid transcript)
                (emit (FxInference transcript (leadName conn) (leadPhone conn)) sv2)
        end
      else sv              (* interim result, or empty final result *)
  end.

(** The store of a detected outcome:
    [if (aiResult.outcome && aiResult.outcome.type && sess)]. *)
Definition storeOutcome (sid : SessionId) (o : Outcome) (sv : State) : State :=
  match type o with
  | None => sv
  | Some _ =>
      let sv1 := updSession sid (set_outcome (Some o)) sv in
      match heap sv !! sid with
      | Some s =>
          match callSid s with
          | Some c =>
              if truthy c && bool_decide (is_Some (calls sv !! c))
              then setCalls (<[c := {| entryOutcome := Some o |}]> (calls sv)) sv1
              else sv1
          | None => sv1
          end
      | None => sv1
      end
  end.

(** The [finally] of a conversation turn. *)
Definition turnFinally (sid : SessionId) (sv : State) : State :=
  updSession sid (set_isPlaying false) sv.

(** [ws.on('message')], event [start], up to the first [await] of the
    greeting task. *)
Definition onStart (sid : SessionId) (twilioStreamSid twilioCallSid : option string)
    (sv : State) : State :=
  match conns sv !! sid with
  | None => sv
  | Some conn =>
      let sv1 :=
        match sessions_get sv sid with
        | Some _ =>
            if truthyOpt twilioStreamSid
            then updSession sid (set_streamSid twilioStreamSid) sv else sv
        | None => sv
        end in
      let sv2 :=
        match sessions_get sv1 sid with
        | Some _ =>
            if truthyOpt twilioCallSid
            then updSession sid (set_callSid twilioCallSid) sv1 else sv1
        | None => sv1
        end in
      match sessions_get sv2 sid with
      | Some _ =>
          let sv3 := updSession sid (set_acceptedFirstMedia true) sv2 in
          let sv4 := updSession sid (set_isPlaying true) sv3 in
          addTask (GreetAwaitTTS sid)
            (emit (FxSynthesize (greetingText (leadName conn))) sv4)
      | None => sv2
      end
  end.

(** [ws.on('message')], event [media]. *)
Definition onMedia (sid : SessionId) (b64 : option (list Z)) (sv : State) : State :=
  match conns sv !! sid, b64 with
  | Some _, Some muLawBuffer => emit (FxRecognizerWrite sid (muLawTo16BitPCM muLawBuffer)) sv
  | _, _ => sv
  end.

(** The end of the [stop] handler:
    [s.recognizeStream.end(); sessions.delete(sessionId)]. *)
Definition stopFinish (sid : SessionId) (sv : State) : State :=
  sessions_delete sid (emit (FxRecognizerEnd sid) sv).

(** [ws.on('message')], event [stop], up to its first [await];
    [wsReadyState] is [ws.readyState] when the handler runs. *)
Definition onStop (sid : SessionId) (wsReadyState : Z) (sv : State) : State :=
  match conns sv !! sid with
  | None => sv
  | Some _ =>
      match sessions_get sv sid with
      | None => sv
      | Some s =>
          let hadTranscripts := Nat.ltb 0 (length (transcripts s)) in
          if negb hadTranscripts then
            if negb (Z.eqb wsReadyState 1) then stopFinish sid sv
            else addTask (StopAwaitTTS sid) (emit (FxSynthesize fallbackText) sv)
          else stopFinish sid sv
      end
  end.

(** [ws.on('close')] *)
Definition onClose (sid : SessionId) (sv : State) : State :=
  match conns sv !! sid with
  | None => sv
  | Some _ =>
      match sessions_get sv sid with
      | None => sv
      | Some _ =>
          sessions_delete sid
            (updSession sid (set_closed true) (emit (FxRecognizerEnd sid) sv))
      end
  end.

(** What an awaited call delivers when it settles. *)
Inductive Resolution :=
| RAI (text : Answer string)             (* getAIResponse's reply text *)
| RTTS (audio : Answer (list Z))         (* synthesizeSpeech *)
| RSent (sink : nat -> SinkObs).         (* sendMedia ran to its end *)

(** The continuation of task [i] after its [await]. *)
Definition resume (i : nat) (r : Resolution) (sv : State) : State :=
  match tasks sv !! i, r with
  (* conversation turn *)
  | Some (TurnAwaitAI sid transcript), RAI (Resolved text) =>
      let sv1 := storeOutcome sid (analyzeOutcome transcript text) sv in
      setTask i (TurnAwaitTTS sid) (emit (FxSynthesize text) sv1)
  | Some (TurnAwaitAI sid _), RAI Rejected =>
      setTask i TDone (turnFinally sid sv)
  | Some (TurnAwaitTTS sid), RTTS (Resolved audioBuffer) =>
      setTask i (TurnAwaitSend sid (sendMediaPrepare sv (Some sid) (Some audioBuffer))) sv
  | Some (TurnAwaitTTS sid), RTTS Rejected =>
      setTask i TDone (turnFinally sid sv)
  | Some (TurnAwaitSend sid job), RSent sink =>
      setTask i TDone (turnFinally sid (emit (FxPlayback sid (sendMediaRun job sink)) sv))
  (* greeting *)
  | Some (GreetAwaitTTS sid), RTTS (Resolved audioBuffer) =>
      setTask i (GreetAwaitSend sid (sendMediaPrepare sv (Some sid) (Some audioBuffer))) sv
  | Some (GreetAwaitTTS sid), RTTS Rejected =>
      (* catch: const sess = sessions.get(sessionId); if (sess) sess.isPlaying = false *)
      match sessions_get sv sid with
      | Some _ => setTask i TDone (updSession sid (set_isPlaying false) sv)
      | None => setTask i TDone sv
      end
  | Some (GreetAwaitSend sid job), RSent sink =>
      setTask i TDone
        (updSession sid (set_isPlaying false)
           (emit (FxPlayback sid (sendMediaRun job sink)) sv))
  (* fallback at stop *)
  | Some (StopAwaitTTS sid), RTTS (Resolved audioBuffer) =>
      setTask i (StopAwaitSend sid (sendMediaPrepare sv (Some sid) (Some audioBuffer))) sv
  | Some (StopAwaitTTS sid), RTTS Rejected =>
      setTask i TDone (stopFinish sid sv)
  | Some (StopAwaitSend sid job), RSent sink =>
      setTask i TDone (stopFinish sid (emit (FxPlayback sid (sendMediaRun job sink)) sv))
  | _, _ => sv
  end.

(** Everything that can happen to the server. *)
Inductive Event :=
| EConnect (sid : SessionId) (leadName leadPhone : string)
| EStart (sid : SessionId) (streamSid callSid : option string)
| EMedia (sid : SessionId) (payload : option (list Z))
| EStop (sid : SessionId) (wsReadyState : Z)
| EClose (sid : SessionId)
| EStt (sid : SessionId) (transcript : string) (isFinal : bool)
| EResolve (task : nat) (r : Resolution).

Definition step (sv : State) (ev : Event) : State :=
  match ev with
  | EConnect sid name phone => onConnection sid name phone sv
  | EStart sid ssid csid => onStart sid ssid csid sv
  | EMedia sid p => onMedia sid p sv
  | EStop sid rs => onStop sid rs sv
  | EClose sid => onClose sid sv
  | EStt sid t f => onSttData sid t f sv
  | EResolve i r => resume i r sv
  end.

Definition run (sv : State) (evs : list Event) : State := fold_left step evs sv.

(** Counters over the effect log. *)
Definition isPlayback (e : Effect) : bool :=
  match e with FxPlayback _ _ => true | _ => false end.
Definition playbacks (sv : State) : nat := length (List.filter isPlayback (effects sv)).

(** ** Vocabulary of the properties *)

(** [ceil (n / d)] on naturals. *)
Definition ceilDiv (n d : nat) : nat := (n + (d - 1)) / d.

(** The sink is open at every round: [readyState] is 1 and [ws.send]
    returns. *)
Definition sinkStaysOpen (sink : nat -> SinkObs) : Prop :=
  forall n, readyState (sink n) = 1%Z /\ sendThrows (sink n) = false.

(** What the frames of one playback look like when nothing stops the loop. *)
Record fullPlayback (muLaw : list Z) (streamSid : option string) (frames : list Frame)
  : Prop := {
  fp_count : length frames = ceilDiv (length muLaw) chunkSize;
  fp_bytes : concat (List.map payload frames) = muLaw;
  fp_full : forall i f, frames !! i = Some f -> S i < length frames ->
                        length (payload f) = chunkSize;
  fp_nonempty : forall i f, frames !! i = Some f -> 1 <= length (payload f) <= chunkSize;
  fp_sid : forall i f, frames !! i = Some f ->
                       frameStreamSid f = if truthyOpt streamSid then streamSid else None
}.

(** The classification a step makes for session [sid], if it makes one:
    the step that resumes a turn of [sid] with the reply text. *)
Definition classification (sv : State) (ev : Event) (sid : SessionId) : option Outcome :=
  match ev with
  | EResolve i (RAI (Resolved text)) =>
      match tasks sv !! i with
      | Some (TurnAwaitAI sid' transcript) =>
          if decide (sid' = sid) then Some (analyzeOutcome transcript text) else None
      | _ => None
      end
  | _ => None
  end.

(** "The first stored outcome wins", as a property of one step. *)
Definition first_outcome_wins : Prop :=
  forall (sv : State) (ev : Event) (sid : SessionId) (s s' : Session) (o : Outcome),
    heap sv !! sid = Some s ->
    outcome s = Some o -> type o <> None ->
    heap (step sv ev) !! sid = Some s' ->
    outcome s' = Some o.

(** The transcript a step records on session [sid]: a final result that
    is not empty after trimming, delivered while the session is in the
    [sessions] map. *)
Definition recorded (sv : State) (ev : Event) (sid : SessionId) : list string :=
  match ev with
  | EStt sid' transcript true =>
      if decide (sid' = sid) then
        if truthy (trim transcript) && bool_decide (is_Some (conns sv !! sid))
           && bool_decide (sid ∈ sessions sv)
        then [trim transcript] else []
      else []
  | _ => []
  end.

(** The session whose conversation turn, or whose greeting, a suspended
    task belongs to. *)
Definition turnOf (t : Task) : option SessionId :=
  match t with
  | TurnAwaitAI sid _ | TurnAwaitTTS sid | TurnAwaitSend sid _ => Some sid
  | _ => None
  end.

Definition greetingOf (t : Task) : option SessionId :=
  match t with
  | GreetAwaitTTS sid | GreetAwaitSend sid _ => Some sid
  | _ => None
  end.



(** ** Concrete calls, used to run the model *)

Definition alwaysOpen : nat -> SinkObs := fun _ => sinkOpen.

(** One sample of silence. *)
Definition tinyAudio : list Z := [0; 0]%Z.

(** 322 samples of silence: two full frames and two bytes of a third. *)
Definition longAudio : list Z := List.repeat 0%Z 644.

Definition demoConn : Conn := {| leadName := "Dana"; leadPhone := "+15550100" |}.

(** A connection whose [start] event carries both ids, after its greeting
    has been played; [demoIdle] is its session at that point. *)
Definition demoGreeted : State :=
  run initial
    [EConnect "s1" "Dana" "+15550100";
     EStart "s1" (Some "MZ1") (Some "CA1");
     EResolve 0 (RTTS (Resolved tinyAudio));
     EResolve 0 (RSent alwaysOpen)].

Definition demoIdle : Session :=
  {| transcripts := []; closed := false; acceptedFirstMedia := true;
     streamSid := Some "MZ1"; callSid := Some "CA1"; isPlaying := false;
     outcome := None |}.

(** A complete conversation turn of session ["s1"] run as task [i]. *)
Definition demoTurn (i : nat) (utterance reply : string) : list Event :=
  [EStt "s1" utterance true;
   EResolve i (RAI (Resolved reply));
   EResolve i (RTTS (Resolved tinyAudio));
   EResolve i (RSent alwaysOpen)].

(** The call after a first turn that books a meeting, and the same call
    once the caller's next utterance has been sent to inference. *)
Definition demoBooked : State :=
  run demoGreeted (demoTurn 1 "Tuesday at 2pm works" "Great, see you then. HANGUP").

Definition demoSecondTurn : State := step demoBooked (EStt "s1" "okay bye" true).

Definition bookedOutcome : Outcome :=
  {| type := Some scheduled; details := Some "Tuesday 2 PM" |}.
Definition endedOutcome : Outcome :=
  {| type := Some hangup; details := Some "Call ended" |}.

(** A connection whose [start] event carried no stream id, with the
    greeting synthesized and about to be sent. *)
Definition demoNoStreamSid : State :=
  run initial
    [EConnect "s2" "Lee" "+15550101";
     EStart "s2" None (Some "CA2");
     EResolve 0 (RTTS (Resolved tinyAudio))].

(** A call whose [stop] event arrives, on an open socket, while the
    speech of a turn is being synthesized. *)
Definition demoStoppedMidTurn : State :=
  run demoGreeted
    [EStt "s1" "Tuesday at 2pm works" true;
     EResolve 1 (RAI (Resolved "Great, see you then. HANGUP"));
     EStop "s1" 1].

(** A connection closed while its greeting is being synthesized. *)
Definition demoClosedMidGreeting : State :=
  run initial
    [EConnect "s3" "Kim" "+15550102";
     EStart "s3" (Some "MZ3") (Some "CA3");
     EClose "s3"].

End Server.

(** ** Vocabulary for runs of the server *)

Module Runs.
Import Text Codec Classifier Server.
Local Open Scope string_scope.

(** A round of the send loop goes through: the socket is open and
    [ws.send] returns. *)
Definition usable (o : SinkObs) : bool :=
  Z.eqb (readyState o) 1 && negb (sendThrows o).

(** How many of the [count] rounds that start at round [from] go through
    before the first one that does not. *)
Fixpoint openRounds (sink : nat -> SinkObs) (from count : nat) : nat :=
  match count with
  | O => O
  | S count' =>
      if usable (sink from) then S (openRounds sink (S from) count') else O
  end.

(** The states the server can be in: those a sequence of events leads to
    from the start of the process. *)
Definition reachable (sv : State) : Prop := exists evs, sv = run initial evs.

(** The session a suspended task raised the flag for. *)
Definition flagOwner (t : Task) : option SessionId :=
  match turnOf t with
  | Some sid => Some sid
  | None => greetingOf t
  end.

(** The events a connection's socket and recognizer deliver, the media
    frames apart. *)
Definition addressedTo (sid : SessionId) (ev : Event) : Prop :=
  match ev with
  | EStart sid' _ _ | EStop sid' _ | EClose sid' | EStt sid' _ _ => sid' = sid
  | _ => False
  end.

End Runs.

(** ** Vocabulary for the classifier's patterns and results *)

Module Formats.
Import Text Regex Classifier.
Local Open Scope string_scope.

(** The texts a pattern can consume, up to ASCII case, leaving aside what
    [\b] asks of the surroundings. *)
Inductive lang : regex -> list ascii -> Prop :=
| lang_eps : lang REps []
| lang_char (c x : ascii) : toLowerChar x = toLowerChar c -> lang (RChar c) [x]
| lang_digit (x : ascii) : isDigit x = true -> lang RDigit [x]
| lang_space (x : ascii) : isSpace x = true -> lang RSpace [x]
| lang_wordb : lang RWordB []
| lang_seq (r1 r2 : regex) (v1 v2 : list ascii) :
    lang r1 v1 -> lang r2 v2 -> lang (RSeq r1 r2) (v1 ++ v2)
| lang_alt_l (r1 r2 : regex) (v : list ascii) : lang r1 v -> lang (RAlt r1 r2) v
| lang_alt_r (r1 r2 : regex) (v : list ascii) : lang r2 v -> lang (RAlt r1 r2) v
| lang_opt_none (r : regex) : lang (ROpt r) []
| lang_opt_some (r : regex) (v : list ascii) : lang r v -> lang (ROpt r) v
| lang_star_nil (r : regex) : lang (RStar r) []
| lang_star_cons (r : regex) (v1 v2 : list ascii) :
    lang r v1 -> lang (RStar r) v2 -> lang (RStar r) (v1 ++ v2)
| lang_group (n : nat) (r : regex) (v : list ascii) : lang r v -> lang (RGroup n r) v.

Fixpoint hasGroup (r : regex) : bool :=
  match r with
  | RGroup _ _ => true
  | RSeq r1 r2 | RAlt r1 r2 => hasGroup r1 || hasGroup r2
  | ROpt r1 | RStar r1 => hasGroup r1
  | _ => false
  end.

(** The loop that [matchR] runs for [r*], on its own: [m] matches one
    iteration, [n] bounds the iterations left. *)
Section StarLoop.
Context {A : Type} (m : MState -> (MState -> option A) -> option A)
        (k : MState -> option A).

Fixpoint starLoop (n : nat) (st : MState) : option A :=
  match n with
  | O => k st
  | S n' =>
      match m st (fun st1 =>
              if Nat.ltb (length (rest st1)) (length (rest st))
              then starLoop n' st1 else None) with
      | Some a => Some a
      | None => k st
      end
  end.

End StarLoop.

(** Captures and matcher states with their text in lower case. *)
Definition lowerCaps (cs : list (nat * list ascii)) : list (nat * list ascii) :=
  List.map (fun c => (fst c, List.map toLowerChar (snd c))) cs.

Definition lowerState (st : MState) : MState :=
  {| prev := option_map toLowerChar (prev st);
     rest := List.map toLowerChar (rest st);
     caps := lowerCaps (caps st) |}.

Definition dayNames : list string :=
  ["Monday"; "Tuesday"; "Wednesday"; "Thursday"; "Friday"; "Saturday"; "Sunday"].

Definition meridiems : list string := ["AM"; "PM"].

(** One or two digits, optionally followed by a colon and two digits. *)
Definition isClock (s : string) : bool :=
  match list_ascii_of_string s with
  | [h] => isDigit h
  | [h1; h2] => isDigit h1 && (isDigit h2)
  | [h; c; m1; m2] => isDigit h && Ascii.eqb c ":" && isDigit m1 && isDigit m2
  | [h1; h2; c; m1; m2] =>
      isDigit h1 && isDigit h2 && Ascii.eqb c ":" && isDigit m1 && isDigit m2
  | _ => false
  end.

(** The four forms of the details of a scheduled meeting. *)
Inductive detailsShape : string -> Prop :=
| shape_fallback : detailsShape "Meeting scheduled"
| shape_day (day : string) : In day dayNames -> detailsShape day
| shape_time (clock mer : string) :
    isClock clock = true -> In mer meridiems -> detailsShape (clock ++ " " ++ mer)
| shape_day_time (day clock mer : string) :
    In day dayNames -> isClock clock = true -> In mer meridiems ->
    detailsShape (day ++ " " ++ clock ++ " " ++ mer).

(** Some scheduling pattern is found in the reply or in the utterance. *)
Definition mentionsSchedule (userTranscript aiResponse : string) : bool :=
  existsb (fun pattern => matches aiResponse pattern || matches userTranscript pattern)
    schedulePatterns.

End Formats.

(** ** The HTTP endpoints *)

Module Http.
Import Text Classifier Server.
Local Open Scope string_scope.

(** [s.replace(/c/g, by)] for a pattern that is the single character [c]. *)
Fixpoint replaceAll (c : ascii) (by' : string) (s : string) : string :=
  match s with
  | EmptyString => EmptyString
  | String x s' =>
      if Ascii.eqb x c then by' ++ replaceAll c by' s'
      else String x (replaceAll c by' s')
  end.

(** The double quote character. *)
Definition doubleQuote : ascii := "034"%char.

(** [xmlEscape(str)]; [None] stands for a value that is not a string. *)
Definition xmlEscape (str : option string) : string :=
  match str with
  | None => EmptyString
  | Some s =>
      replaceAll "'" "&apos;"
        (replaceAll doubleQuote "&quot;"
           (replaceAll ">" "&gt;"
              (replaceAll "<" "&lt;"
                 (replaceAll "&" "&amp;" s))))
  end.

(** What one pass over the text would write for a character: its entity,
    or the character itself. *)
Definition entity (x : ascii) : string :=
  if Ascii.eqb x "&" then "&amp;"
  else if Ascii.eqb x "<" then "&lt;"
  else if Ascii.eqb x ">" then "&gt;"
  else if Ascii.eqb x doubleQuote then "&quot;"
  else if Ascii.eqb x "'" then "&apos;"
  else String x EmptyString.

Fixpoint entities (s : string) : string :=
  match s with
  | EmptyString => EmptyString
  | String x s' => entity x ++ entities s'
  end.

(** The characters that end an attribute value or open a tag. *)
Definition isMarkup (x : ascii) : bool :=
  Ascii.eqb x "<" || Ascii.eqb x ">" || Ascii.eqb x doubleQuote || Ascii.eqb x "'".

(** *** The table of calls

    The [calls] map keeps one object per call sid, in the order in which
    the sids were first set. The [outcome] field of these objects is the
    one the media-stream handlers write; it lives in [calls] of the server
    state. The other fields are kept here, in an association list that
    follows the order of the map. *)

(** The form fields of a status webhook. *)
Record StatusBody := {
  bodyCallSid : option string;
  bodyCallStatus : option string;
  bodyTo : option string;
  bodyFrom : option string
}.

(** [leadId] is absent ([None]), [null] ([Some None]) or a number. *)
Record CallInfo := {
  callTo : option string;
  callFrom : option string;
  callLeadId : option (option Z);
  callStatus : option string;
  createdAt : option string;
  lastUpdate : option string;
  raw : option StatusBody
}.

(** The object [{ sid }]. *)
Definition bareInfo : CallInfo :=
  {| callTo := None; callFrom := None; callLeadId := None; callStatus := None;
     createdAt := None; lastUpdate := None; raw := None |}.

(** [Map.prototype.get] and [Map.prototype.set]: setting a key that is
    present keeps its place. *)
Fixpoint mapGet {V} (k : string) (m : list (string * V)) : option V :=
  match m with
  | [] => None
  | (k', v) :: m' => if String.eqb k' k then Some v else mapGet k m'
  end.

Fixpoint mapSet {V} (k : string) (v : V) (m : list (string * V)) : list (string * V) :=
  match m with
  | [] => [(k, v)]
  | (k', v') :: m' =>
      if String.eqb k' k then (k, v) :: m' else (k', v') :: mapSet k v m'
  end.

Record App := {
  server : State;
  callInfo : list (string * CallInfo)
}.

Definition appInitial : App := {| server := initial; callInfo := [] |}.

(** An element of the array [/calls-status] answers with. *)
Record StatusRow := {
  rowSid : string;
  rowStatus : option string;
  rowTo : option string;
  rowLeadId : option (option Z);
  rowOutcome : option Outcome
}.

Inductive Reply :=
| MissingNameOrPhone                 (* 400, from [/start-call] *)
| FailedToCreateCall                 (* 500, from [/start-call] *)
| CallCreated (callSid : string)     (* [{ success: true, callSid }] *)
| StatusAccepted                     (* [sendStatus(200)] *)
| StatusRejected                     (* [sendStatus(400)] *)
| CallsStatus (rows : list StatusRow).

Section Endpoints.

(** [config.TWILIO_CALLER_NUMBER] *)
Variable TWILIO_CALLER_NUMBER : string.

(** [POST /start-call], from the point where [twilioClient.calls.create]
    has settled with [call]: its sid, or a rejection. [now] is the time
    of day the handler reads. *)
Definition startCall (name phone : option string) (leadId : option (option Z))
    (call : Answer string) (now : string) (app : App) : App * Reply :=
  if negb (truthyOpt name) || negb (truthyOpt phone) then (app, MissingNameOrPhone)
  else
    match call with
    | Rejected => (app, FailedToCreateCall)
    | Resolved sid =>
        let entry :=
          {| callTo := phone; callFrom := Some TWILIO_CALLER_NUMBER;
             callLeadId := Some (match leadId with Some v => v | None => None end);
             callStatus := Some "initiated"; createdAt := Some now;
             lastUpdate := None; raw := None |} in
        ({| server := setCalls (<[sid := {| entryOutcome := None |}]> (calls (server app)))
                        (server app);
            callInfo := mapSet sid entry (callInfo app) |},
         CallCreated sid)
    end.

(** [POST /call-status] *)
Definition callStatusHook (body : StatusBody) (now : string) (app : App) : App * Reply :=
  if truthyOpt (bodyCallSid body) then
    match bodyCallSid body with
    | Some sid =>
        let entry := default bareInfo (mapGet sid (callInfo app)) in
        let entry' :=
          {| callTo := if truthyOpt (bodyTo body) then bodyTo body else callTo entry;
             callFrom := if truthyOpt (bodyFrom body) then bodyFrom body else callFrom entry;
             callLeadId := callLeadId entry;
             callStatus := bodyCallStatus body;
             createdAt := createdAt entry;
             lastUpdate := Some now;
             raw := Some body |} in
        ({| server :=
              match calls (server app) !! sid with
              | Some _ => server app
              | None =>
                  setCalls (<[sid := {| entryOutcome := None |}]> (calls (server app)))
                    (server app)
              end;
            callInfo := mapSet sid entry' (callInfo app) |},
         StatusAccepted)
    | None => (app, StatusRejected)
    end
  else (app, StatusRejected).

(** [GET /calls-status] *)
Definition callsStatus (app : App) : list StatusRow :=
  List.map (fun kv =>
         {| rowSid := fst kv;
            rowStatus := callStatus (snd kv);
            rowTo := callTo (snd kv);
            rowLeadId := callLeadId (snd kv);
            rowOutcome :=
              match calls (server app) !! fst kv with
              | Some e => entryOutcome e
              | None => None
              end |})
      (callInfo app).

(** Everything that reaches the process: the three requests above and
    what the media streams deliver. *)
Inductive Request :=
| PostStartCall (name phone : option string) (leadId : option (option Z))
    (call : Answer string) (now : string)
| PostCallStatus (body : StatusBody) (now : string)
| GetCallsStatus
| Stream (ev : Event).

Definition handle (app : App) (rq : Request) : App * option Reply :=
  match rq with
  | PostStartCall name phone leadId call now =>
      let r := startCall name phone leadId call now app in (fst r, Some (snd r))
  | PostCallStatus body now =>
      let r := callStatusHook body now app in (fst r, Some (snd r))
  | GetCallsStatus => (app, Some (CallsStatus (callsStatus app)))
  | Stream ev => ({| server := step (server app) ev; callInfo := callInfo app |}, None)
  end.

(** The row [/calls-status] gives for [sid], if it gives one. *)
Definition rowOf (app : App) (sid : string) : option StatusRow :=
  List.find (fun r => String.eqb (rowSid r) sid) (callsStatus app).

Definition serve (app : App) (rqs : list Request) : App :=
  fold_left (fun a rq => fst (handle a rq)) rqs app.

Definition served (app : App) : Prop := exists rqs, app = serve appInitial rqs.

End Endpoints.

(** A call placed through [/start-call] whose stream has been greeted
    and whose first utterance is with the inference service. *)
Definition demoCallRequests : list Request :=
  [PostStartCall (Some "Dana") (Some "+15550100") (Some (Some 0%Z)) (Resolved "CA1")
     "2025-01-01T10:00:00.000Z";
   Stream (EConnect "s1" "Dana" "+15550100");
   Stream (EStart "s1" (Some "MZ1") (Some "CA1"));
   Stream (EResolve 0 (RTTS (Resolved tinyAudio)));
   Stream (EResolve 0 (RSent alwaysOpen));
   Stream (EStt "s1" "Tuesday at 2pm works" true)].

Definition demoCall : App := serve "+15550199" appInitial demoCallRequests.

End Http.

(** ** The dialer page *)

Module Frontend.
Import Text Classifier Http.
Local Open Scope string_scope.

Record Lead := {
  id : nat;
  name : string;
  company : string;
  title : string;
  phone : string;
  status : string;
  notes : string;
  label : option OutcomeType;
  callSid : option string
}.

(** [s.split(c)] for a separator of one character. *)
Fixpoint split (c : ascii) (s : string) : list string :=
  match s with
  | EmptyString => [EmptyString]
  | String x s' =>
      if Ascii.eqb x c then EmptyString :: split c s'
      else
        match split c s' with
        | w :: ws => String x w :: ws
        | [] => [String x EmptyString]
        end
  end.

(** [cell?.trim() || 'Unknown'] *)
Definition cellOr (cell : option string) : string :=
  match cell with
  | Some v => if truthy (trim v) then trim v else "Unknown"
  | None => "Unknown"
  end.

Definition parseRow (i : nat) (row : string) : Lead :=
  let cells := split "," row in
  {| id := i;
     name := cellOr (cells !! 0%nat);
     company := cellOr (cells !! 1%nat);
     title := cellOr (cells !! 2%nat);
     phone := cellOr (cells !! 3%nat);
     status := "Pending";
     notes := EmptyString;
     label := None;
     callSid := None |}.

(** [handleLoadLeads]: the new value of [leads], or [None] when the
    handler returns without setting it. *)
Definition handleLoadLeads (leadCsv : string) : option (list Lead) :=
  let csvText := trim leadCsv in
  if negb (truthy csvText) then None
  else Some (imap parseRow (split "010" csvText)).

(** The statuses at which a call is no longer polled. *)
Definition terminalTerms : list string :=
  ["Called"; "Call Failed"; "Failed"; "No Answer"; "Busy"; "📅"; "📞"; "❌"].

Definition polled (l : Lead) : bool :=
  truthyOpt (callSid l) && negb (existsb (fun term => includes (status l) term) terminalTerms).

(** [shouldPoll] *)
Definition shouldPoll (leads : list Lead) : bool := existsb polled leads.

Definition friendly (status : string) : string :=
  let status := if String.eqb status "in-progress" then "In Call" else status in
  let status := if String.eqb status "completed" then "Called" else status in
  let status := if String.eqb status "no-answer" then "No Answer" else status in
  let status := if String.eqb status "busy" then "Busy" else status in
  let status := if String.eqb status "failed" then "Failed" else status in
  let status := if String.eqb status "ringing" then "Ringing" else status in
  status.

(** The function the poll maps over the leads, given the array [data]
    that [/calls-status] returned. *)
Definition updateLead (data : list StatusRow) (l : Lead) : Lead :=
  match callSid l with
  | None => l
  | Some sid =>
      if negb (truthy sid) then l
      else
        match List.find (fun d => String.eqb (rowSid d) sid) data with
        | None => l
        | Some entry =>
            let status0 :=
              if truthyOpt (rowStatus entry) then default EmptyString (rowStatus entry)
              else status l in
            let status1 := friendly status0 in
            let result :=
              match rowOutcome entry with
              | Some o =>
                  match type o with
                  | Some t =>
                      (match t with
                       | scheduled =>
                           if truthyOpt (details o)
                           then "📅 " ++ default EmptyString (details o)
                           else status1
                       | hangup => "📞 Hung Up"
                       | irrelevant => "❌ Not Relevant"
                       end, Some t)
                  | None => (status1, label l)
                  end
              | None => (status1, label l)
              end in
            {| id := id l; name := name l; company := company l; title := title l;
               phone := phone l; status := fst result; notes := notes l;
               label := snd result; callSid := callSid l |}
        end
  end.

(** How often the character [c] occurs in [s]. *)
Fixpoint occurrences (c : ascii) (s : string) : nat :=
  match s with
  | EmptyString => 0
  | String x s' => (if Ascii.eqb x c then 1 else 0) + occurrences c s'
  end.

(** What the page knows of one lead. *)
Definition freshLead (l : Lead) : Prop :=
  status l = "Pending" /\ notes l = EmptyString /\ label l = None /\ callSid l = None /\
  truthy (name l) = true /\ truthy (company l) = true /\
  truthy (title l) = true /\ truthy (phone l) = true.

(** The lead of the demo call, as the page shows it while the call rings. *)
Definition demoLead : Lead :=
  {| id := 0; name := "Dana"; company := "Acme Inc"; title := "CTO";
     phone := "+15550100"; status := "Ringing"; notes := EmptyString;
     label := None; callSid := Some "CA1" |}.

End Frontend.

(** * Properties *)

(** ** Codec *)

Module CodecFacts.
Import Codec.
Local Open Scope Z_scope.

Lemma segmentLoop_mask_zero fuel sample exponent :
  segmentLoop fuel sample 0 exponent = exponent.
Proof. destruct fuel; reflexivity. Qed.

(** Sixteen rounds of the segment search are enough: more fuel gives the
    same exponent. *)
Lemma findExponent_fuel (k : nat) (sample : Z) :
  segmentLoop (16 + k) sample 0x4000 7 = findExponent sample.
Proof.
  unfold findExponent.
  change (16 + k)%nat with (S (S (S (S (S (S (S (S (S (S (S (S (S (S (S (S k)))))))))))))))).
  do 15 (cbn [segmentLoop];
         match goal with |- context [(?a <? ?b) && ?c] => destruct ((a <? b) && c) end;
         [ | reflexivity ];
         match goal with |- context [Z.shiftr ?a 1] =>
           let v := eval vm_compute in (Z.shiftr a 1) in change (Z.shiftr a 1) with v end).
  rewrite !segmentLoop_mask_zero. reflexivity.
Qed.

(** The encoder always produces a byte. *)
Lemma encodeSample_byte (x : Z) : 0 <= encodeSample x < 256.
Proof.
  unfold encodeSample. change 0xFF with (Z.ones 8). rewrite Z.land_ones by lia.
  apply Z.mod_pos_bound. lia.
Qed.

(** The decoder clamps: whatever the byte, its result is a signed 16-bit
    value. *)
Lemma decodeSample_int16 (b : Z) : int16 (decodeSample b).
Proof.
  unfold int16, decodeSample.
  repeat match goal with
         | |- context [if ?a <? ?b then _ else _] => destruct (Z.ltb_spec a b)
         end; lia.
Qed.

Lemma zrange_complete (count : nat) (start x : Z) :
  start <= x < start + Z.of_nat count -> In x (zrange count start).
Proof.
  revert start. induction count as [|count IH]; intros start Hx; [lia|].
  cbn [zrange]. destruct (Z.eq_dec start x) as [->|Hne].
  - left. reflexivity.
  - right. apply IH. lia.
Qed.

Lemma allSamples_complete (x : Z) : int16 x -> In x allSamples.
Proof.
  intros [Hlo Hhi]. unfold allSamples. apply zrange_complete. lia.
Qed.

(** On the code as written no sample at all survives the round trip within
    one quantization step: [decodeSample] lacks the factor four of the
    G.711 expansion its comment quotes, and subtracts the bias on top. *)
Lemma round_trip_never_within_step (x : Z) :
  int16 x -> quantStep x < Z.abs (decodeSample (encodeSample x) - x).
Proof.
  intros Hx.
  assert (Hall : List.forallb (fun y => negb (withinStep y)) allSamples = true)
    by (vm_compute; reflexivity).
  rewrite List.forallb_forall in Hall.
  specialize (Hall x (allSamples_complete x Hx)).
  unfold withinStep in Hall.
  destruct (Z.leb_spec (Z.abs (decodeSample (encodeSample x) - x)) (quantStep x));
    [discriminate | lia].
Qed.

(** C2 (the code departs from the claim): at silence and at full scale the
    decoded sample is further from the input than the quantization step of
    its segment, through the sample functions and through the buffer
    functions alike. [decode (encode 0) = -100] with step 8 and
    [decode (encode 32767) = 7931] with step 1024, the largest step of the
    law. *)
Theorem codec_round_trip_exceeds_step :
  decodeSample (encodeSample 0) = -100 /\ quantStep 0 = 8 /\
  decodeSample (encodeSample 32767) = 7931 /\ quantStep 32767 = 1024 /\
  option_map muLawTo16BitPCM (linear16ToMuLaw (writeInt16LE 0 ++ writeInt16LE 32767))
    = Some (writeInt16LE (-100) ++ writeInt16LE 7931).
Proof. vm_compute. repeat split; reflexivity. Qed.

End CodecFacts.

(** ** Classifier *)

Module ClassifierFacts.
Import Classifier.
Local Open Scope string_scope.

(** C4: the four literal scenarios of the outcome classifier. *)
Theorem classifier_scenarios :
  analyzeOutcome "Tuesday at 2pm works" "Great, see you then. HANGUP"
    = {| type := Some scheduled; details := Some "Tuesday 2 PM" |} /\
  type (analyzeOutcome "I'm not interested, stop calling"
                       "No problem, have a great day. HANGUP") = Some irrelevant /\
  type (analyzeOutcome "okay bye" "Understood. HANGUP") = Some hangup /\
  analyzeOutcome "maybe later" "Sure, I'll follow up."
    = {| type := None; details := None |}.
Proof. vm_compute. repeat split; reflexivity. Qed.

(** The matcher on the time pattern: the hour and the meridiem are
    captured; a dotted meridiem matches only when a word character follows
    its last dot, because of the closing [\b]. *)
Example timePattern_plain :
  option_map (fun m => (Regex.capture 1 m, Regex.capture 2 m))
             (Regex.regexMatch "see you at 10:30 PM then" timePattern)
  = Some ("10:30", "PM").
Proof. vm_compute. reflexivity. Qed.

Example timePattern_dotted :
  Regex.matches "10:30 a.m. on Friday" timePattern = false /\
  Regex.matches "10:30 a.m.x" timePattern = true.
Proof. vm_compute. split; reflexivity. Qed.

(** The scheduling check comes first: a decline next to a clock time is
    classified [scheduled]. *)
Example schedule_beats_decline :
  analyzeOutcome "not interested, stop calling me at 9 am" "Understood. HANGUP"
  = {| type := Some scheduled; details := Some "9 AM" |}.
Proof. vm_compute. reflexivity. Qed.

(** Without the termination keyword in the reply the classifier answers
    [none], whatever the texts. *)
Lemma analyzeOutcome_no_hangup (userTranscript aiResponse : string) :
  Text.includes (Text.toLowerCase aiResponse) "hangup" = false ->
  analyzeOutcome userTranscript aiResponse = {| type := None; details := None |}.
Proof. intros H. unfold analyzeOutcome. rewrite H. reflexivity. Qed.

(** With the keyword the classifier always answers a kind other than
    [none]. *)
Lemma analyzeOutcome_hangup (userTranscript aiResponse : string) :
  Text.includes (Text.toLowerCase aiResponse) "hangup" = true ->
  type (analyzeOutcome userTranscript aiResponse) <> None.
Proof.
  intros H. unfold analyzeOutcome. rewrite H.
  destruct (Text.truthyOpt _); [discriminate |].
  destruct (existsb _ _); discriminate.
Qed.

End ClassifierFacts.

(** ** Frame pacer *)

Module PacerFacts.
Import Text Codec Server.

(** [ceilDiv n d] is the least number of [d]-sized frames that hold [n]
    bytes. *)
Lemma ceilDiv_least (n d : nat) :
  0 < d -> n <= ceilDiv n d * d /\ forall k, n <= k * d -> ceilDiv n d <= k.
Proof.
  intros Hd. unfold ceilDiv. split.
  - pose proof (Nat.div_mod (n + (d - 1)) d ltac:(lia)) as E.
    pose proof (Nat.mod_upper_bound (n + (d - 1)) d ltac:(lia)). nia.
  - intros k Hk. apply Nat.lt_succ_r.
    apply Nat.Div0.div_lt_upper_bound. nia.
Qed.

Lemma ceilDiv_zero (d : nat) : 0 < d -> ceilDiv 0 d = 0.
Proof. intros Hd. unfold ceilDiv. apply Nat.div_small. lia. Qed.

Lemma ceilDiv_step (n d : nat) : 0 < d -> 0 < n -> ceilDiv n d = S (ceilDiv (n - d) d).
Proof.
  intros Hd Hn. unfold ceilDiv.
  destruct (Nat.le_gt_cases d n) as [Hle|Hlt].
  - replace (n + (d - 1)) with ((n - d + (d - 1)) + 1 * d) by lia.
    rewrite Nat.div_add by lia. lia.
  - replace (n - d) with 0 by lia. rewrite (Nat.div_small (0 + _)) by lia.
    replace (n + (d - 1)) with ((n - 1) + 1 * d) by lia.
    rewrite Nat.div_add by lia. rewrite Nat.div_small by lia. reflexivity.
Qed.

Lemma payload_mediaMessage (streamSid : option string) (slice : list Z) :
  payload (mediaMessage streamSid slice) = slice.
Proof. unfold mediaMessage. destruct (truthyOpt streamSid); reflexivity. Qed.

Lemma frameStreamSid_mediaMessage (streamSid : option string) (slice : list Z) :
  frameStreamSid (mediaMessage streamSid slice)
  = if truthyOpt streamSid then streamSid else None.
Proof. unfold mediaMessage. destruct (truthyOpt streamSid); reflexivity. Qed.

(** The loop with an open sink, from any offset it can reach: it ends
    before the fuel does and sends the rest of the buffer frame by frame. *)
Lemma sendLoop_open (sink : nat -> SinkObs) (muLaw : list Z) (streamSid : option string) :
  sinkStaysOpen sink ->
  forall fuel offset sentChunks,
    length muLaw - offset < fuel ->
    exists frames,
      sendLoop fuel sink muLaw streamSid offset sentChunks = Some frames /\
      fullPlayback (drop offset muLaw) streamSid frames.
Proof.
  intros Hopen. assert (Hcs : chunkSize = 160) by reflexivity.
  induction fuel as [|fuel IH]; intros offset k Hfuel; [lia|].
  cbn [sendLoop]. destruct (Nat.ltb_spec offset (length muLaw)) as [Hlt|Hge].
  - destruct (Hopen k) as [-> ->]. cbn [Z.eqb Pos.eqb negb].
    destruct (IH (offset + chunkSize) (S k) ltac:(lia)) as (frames & -> & Hf).
    destruct Hf as [Hc Hb Hfull Hne Hsid].
    rewrite length_drop in Hc.
    assert (Hlen : length (take chunkSize (drop offset muLaw))
                   = Nat.min chunkSize (length muLaw - offset))
      by (rewrite length_take, length_drop; reflexivity).
    eexists. split; [reflexivity|]. split; unfold chunkSize in *.
    + cbn [length]. rewrite Hc, length_drop.
      rewrite (ceilDiv_step (length muLaw - offset) 160) by lia.
      do 2 f_equal. lia.
    + cbn [List.map concat]. rewrite payload_mediaMessage, Hb.
      rewrite <- (drop_drop muLaw 160 offset). apply take_drop.
    + intros [|i] f Hi Hlast; cbn in Hi.
      * injection Hi as <-. rewrite payload_mediaMessage, Hlen.
        cbn [length] in Hlast.
        assert (0 < ceilDiv (length muLaw - (offset + 160)) 160) as Hpos by lia.
        destruct (Nat.le_gt_cases (length muLaw - offset) 160) as [Hsmall|Hbig]; [|lia].
        replace (length muLaw - (offset + 160)) with 0 in Hpos by lia.
        rewrite ceilDiv_zero in Hpos by lia. lia.
      * apply (Hfull i f Hi). cbn [length] in Hlast. lia.
    + intros [|i] f Hi; cbn in Hi.
      * injection Hi as <-. rewrite payload_mediaMessage, Hlen. lia.
      * apply (Hne i f Hi).
    + intros [|i] f Hi; cbn in Hi.
      * injection Hi as <-. apply frameStreamSid_mediaMessage.
      * apply (Hsid i f Hi).
  - exists []. split; [reflexivity|].
    rewrite drop_ge by lia. split; cbn.
    + reflexivity.
    + reflexivity.
    + intros i f Hi. rewrite lookup_nil in Hi. discriminate.
    + intros i f Hi. rewrite lookup_nil in Hi. discriminate.
    + intros i f Hi. rewrite lookup_nil in Hi. discriminate.
Qed.

(** The fuel [sendMediaRun] gives the loop is never used up, whatever the
    sink does. *)
Lemma sendLoop_terminates (sink : nat -> SinkObs) (muLaw : list Z)
    (streamSid : option string) :
  forall fuel offset sentChunks,
    length muLaw - offset < fuel ->
    is_Some (sendLoop fuel sink muLaw streamSid offset sentChunks).
Proof.
  induction fuel as [|fuel IH]; intros offset k Hfuel; [lia|].
  cbn [sendLoop]. destruct (Nat.ltb_spec offset (length muLaw)) as [Hlt|Hge]; [|eauto].
  destruct (negb _); [eauto|]. destruct (sendThrows _); [eauto|].
  destruct (IH (offset + chunkSize) (S k) ltac:(unfold chunkSize; lia)) as [frames ->].
  eauto.
Qed.

(** A playback that runs on an open sink. *)
Lemma sendMediaRun_open (muLaw : list Z) (streamSid : option string)
    (sink : nat -> SinkObs) :
  sinkStaysOpen sink ->
  fullPlayback muLaw streamSid (sent (sendMediaRun (JobLoop muLaw streamSid) sink)).
Proof.
  intros Hopen. cbn [sendMediaRun sent].
  destruct (sendLoop_open sink muLaw streamSid Hopen (S (length muLaw)) 0 0 ltac:(lia))
    as (frames & -> & Hf).
  exact Hf.
Qed.

(** C8: on a sink that stays open, [sendMedia] emits
    [ceil (compressedLength / 160)] frames, where [compressedLength] is
    the length of the mu-law encoding of the buffer; every frame but the
    last holds exactly 160 bytes, the last between 1 and 160, and together
    the frames are the encoding. *)
Theorem sendMedia_frame_sizing (sv : State) (ws : SessionId) (pcmBuffer muLaw : list Z)
    (sink : nat -> SinkObs) :
  linear16ToMuLaw pcmBuffer = Some muLaw ->
  sinkStaysOpen sink ->
  let frames := sent (sendMedia sv (Some ws) (Some pcmBuffer) sink) in
  length frames = ceilDiv (length muLaw) 160 /\
  (forall i f, frames !! i = Some f -> S i < length frames ->
               length (payload f) = 160) /\
  (forall i f, frames !! i = Some f -> 1 <= length (payload f) <= 160) /\
  concat (List.map payload frames) = muLaw.
Proof.
  intros Henc Hopen frames. subst frames. unfold sendMedia, sendMediaPrepare.
  destruct pcmBuffer as [|b pcm].
  - cbn in Henc. injection Henc as <-. cbn. repeat split; try reflexivity.
    all: intros; match goal with H : [] !! _ = Some _ |- _ =>
                   rewrite lookup_nil in H; discriminate end.
  - cbn [length Nat.eqb]. rewrite Henc.
    destruct (sendMediaRun_open muLaw
                match sessions_get sv ws with
                | Some sess => streamSid sess
                | None => None
                end sink Hopen) as [Hc Hb Hfull Hne _].
    cbv zeta. auto.
Qed.

(** The frame count on 322 compressed bytes: three frames. *)
Lemma sendMedia_frame_sizing_witness :
  linear16ToMuLaw longAudio = Some (List.repeat 255%Z 322) /\
  sinkStaysOpen alwaysOpen /\
  let frames := sent (sendMedia demoGreeted (Some "s1"%string) (Some longAudio) alwaysOpen) in
  length frames = ceilDiv (length (List.repeat 255%Z 322)) 160 /\
  (forall i f, frames !! i = Some f -> S i < length frames ->
               length (payload f) = 160) /\
  (forall i f, frames !! i = Some f -> 1 <= length (payload f) <= 160) /\
  concat (List.map payload frames) = List.repeat 255%Z 322.
Proof.
  assert (H1 : linear16ToMuLaw longAudio = Some (List.repeat 255%Z 322))
    by (vm_compute; reflexivity).
  assert (H2 : sinkStaysOpen alwaysOpen) by (intros n; split; reflexivity).
  exact (conj H1 (conj H2
           (sendMedia_frame_sizing demoGreeted "s1"%string longAudio _ alwaysOpen H1 H2))).
Defined.

(** C10: with no sink, no buffer or an empty buffer, [sendMedia] returns
    at its guard: no frame is sent and nothing is raised or logged. *)
Theorem sendMedia_guard (sv : State) (sink : nat -> SinkObs) :
  (forall pcmBuffer, sendMediaPrepare sv None pcmBuffer = JobReturned) /\
  (forall ws, sendMediaPrepare sv ws None = JobReturned) /\
  (forall ws, sendMediaPrepare sv ws (Some []) = JobReturned) /\
  (forall pcmBuffer,
      sendMedia sv None pcmBuffer sink = {| sent := []; loggedError := false |}) /\
  (forall ws, sendMedia sv ws None sink = {| sent := []; loggedError := false |}) /\
  (forall ws, sendMedia sv ws (Some []) sink = {| sent := []; loggedError := false |}).
Proof.
  unfold sendMedia, sendMediaPrepare.
  repeat split; intros; try reflexivity.
  all: destruct ws; reflexivity.
Qed.

(** Whatever the sink does, every frame a playback sends is tagged from
    the stream id read at its start: with that id when it is a non-empty
    string, with none otherwise. *)
Lemma sendLoop_streamSid (sink : nat -> SinkObs) (muLaw : list Z)
    (streamSid : option string) :
  forall fuel offset sentChunks frames,
    sendLoop fuel sink muLaw streamSid offset sentChunks = Some frames ->
    Forall (fun f => frameStreamSid f = if truthyOpt streamSid then streamSid else None)
           frames.
Proof.
  induction fuel as [|fuel IH]; intros offset k frames H; [discriminate|].
  cbn [sendLoop] in H.
  destruct (Nat.ltb offset (length muLaw)); [|injection H as <-; constructor].
  destruct (negb _); [injection H as <-; constructor|].
  destruct (sendThrows _); [injection H as <-; constructor|].
  destruct (sendLoop fuel sink muLaw streamSid (offset + chunkSize) (S k)) as [rest|] eqn:E;
    [|discriminate].
  injection H as <-. constructor.
  - apply frameStreamSid_mediaMessage.
  - apply (IH _ _ _ E).
Qed.

(** While the session is in the [sessions] map with a stream id, every
    frame of a playback started then carries that id. *)
Lemma sendMedia_carries_streamSid (sv : State) (ws : SessionId) (sess : Session)
    (sid : string) (pcmBuffer : option (list Z)) (sink : nat -> SinkObs) :
  sessions_get sv ws = Some sess ->
  streamSid sess = Some sid ->
  truthy sid = true ->
  Forall (fun f => frameStreamSid f = Some sid)
         (sent (sendMedia sv (Some ws) pcmBuffer sink)).
Proof.
  intros Hs Hsid Ht. unfold sendMedia, sendMediaPrepare. rewrite Hs, Hsid.
  destruct pcmBuffer as [pcm|]; [|constructor].
  destruct (Nat.eqb (length pcm) 0); [constructor|].
  destruct (linear16ToMuLaw pcm) as [muLaw|]; [|constructor].
  cbn [sendMediaRun sent].
  destruct (sendLoop_terminates sink muLaw (Some sid) (S (length muLaw)) 0 0 ltac:(lia))
    as [frames E].
  rewrite E. cbn [default]. apply sendLoop_streamSid in E. cbn [truthyOpt] in E.
  rewrite Ht in E. exact E.
Qed.

(** With no stream id on the session -- or no session left in the map --
    a playback is not suppressed: on an open sink the whole encoding goes
    out, in frames that have no [streamSid] key. *)
Lemma sendMedia_unknown_streamSid (sv : State) (ws : SessionId)
    (pcmBuffer muLaw : list Z) (sink : nat -> SinkObs) :
  match sessions_get sv ws with
  | Some sess => streamSid sess = None
  | None => True
  end ->
  linear16ToMuLaw pcmBuffer = Some muLaw ->
  muLaw <> [] ->
  sinkStaysOpen sink ->
  let frames := sent (sendMedia sv (Some ws) (Some pcmBuffer) sink) in
  frames <> [] /\
  concat (List.map payload frames) = muLaw /\
  Forall (fun f => frameStreamSid f = None) frames.
Proof.
  intros Hs Henc Hne Hopen frames. subst frames.
  unfold sendMedia, sendMediaPrepare.
  destruct pcmBuffer as [|b pcm]; [cbn in Henc; congruence|].
  cbn [length Nat.eqb]. rewrite Henc.
  assert (Hsid : match sessions_get sv ws with
                 | Some sess => streamSid sess
                 | None => None
                 end = None)
    by (destruct (sessions_get sv ws); [exact Hs | reflexivity]).
  rewrite Hsid.
  destruct (sendMediaRun_open muLaw None sink Hopen) as [Hc Hb _ _ Hn].
  split; [|split].
  - intros E. rewrite E in Hb. cbn in Hb. congruence.
  - exact Hb.
  - apply Forall_lookup. intros i f Hi. apply (Hn i f Hi).
Qed.

End PacerFacts.

(** ** Sessions and conversation turns *)

Module ServerFacts.
Import Text Codec Classifier Server.
Local Open Scope string_scope.

(** Reduce the projections of a state built by the state-update helpers. *)
Ltac proj_simpl :=
  cbn [heap sessions conns calls tasks effects
       updSession emit addTask setTask setCalls sessions_delete
       stopFinish turnFinally] in *.

Lemma truthy_trim (t : string) : truthy (trim t) = true -> truthy t = true.
Proof. destruct t; [cbn; discriminate | reflexivity]. Qed.

Lemma sessions_get_Some (sv : State) (sid : SessionId) (s : Session) :
  sessions_get sv sid = Some s <-> sid ∈ sessions sv /\ heap sv !! sid = Some s.
Proof.
  unfold sessions_get. case_decide; split; try tauto; discriminate.
Qed.

Lemma sessions_get_heap (sv : State) (sid : SessionId) (s : Session) :
  sessions_get sv sid = Some s -> heap sv !! sid = Some s.
Proof. intros H. apply sessions_get_Some in H. tauto. Qed.

(** A field write on the object [sid] shows through [sessions.get]. *)
Lemma sessions_get_updSession (sv : State) (sid sid' : SessionId) (f : Session -> Session) :
  sessions_get (updSession sid f sv) sid'
  = if decide (sid = sid') then f <$> sessions_get sv sid' else sessions_get sv sid'.
Proof.
  unfold sessions_get. proj_simpl. rewrite lookup_alter.
  repeat case_decide; subst; try reflexivity; congruence.
Qed.

Lemma sessions_get_updSession_eq (sv : State) (sid : SessionId) (f : Session -> Session) :
  sessions_get (updSession sid f sv) sid = f <$> sessions_get sv sid.
Proof. rewrite sessions_get_updSession. case_decide; congruence. Qed.

Lemma sessions_get_emit (sv : State) (e : Effect) (sid : SessionId) :
  sessions_get (emit e sv) sid = sessions_get sv sid.
Proof. reflexivity. Qed.

Lemma sessions_get_addTask (sv : State) (t : Task) (sid : SessionId) :
  sessions_get (addTask t sv) sid = sessions_get sv sid.
Proof. reflexivity. Qed.

Lemma sessions_get_setTask (sv : State) (i : nat) (t : Task) (sid : SessionId) :
  sessions_get (setTask i t sv) sid = sessions_get sv sid.
Proof. reflexivity. Qed.

Lemma sessions_get_setCalls (sv : State) (c : gmap string CallEntry) (sid : SessionId) :
  sessions_get (setCalls c sv) sid = sessions_get sv sid.
Proof. reflexivity. Qed.

Lemma sessions_get_delete (sv : State) (sid : SessionId) :
  sessions_get (sessions_delete sid sv) sid = None.
Proof.
  unfold sessions_get. proj_simpl. case_decide as Hin; [|reflexivity].
  apply elem_of_difference in Hin as [_ Hn].
  exfalso. apply Hn. apply elem_of_singleton. reflexivity.
Qed.

(** The task a handler adds gets the next free index. *)
Lemma tasks_addTask_lookup (sv : State) (t : Task) :
  tasks (addTask t sv) !! length (tasks sv) = Some t.
Proof. proj_simpl. apply list_lookup_middle. reflexivity. Qed.

(** *** The transcript handler *)

(** A non-empty final transcript on a registered, idle session: it is
    recorded, the flag is raised and one inference call is issued. *)
Lemma onSttData_idle (sv : State) (sid : SessionId) (conn : Conn) (s : Session)
    (transcript : string) :
  conns sv !! sid = Some conn ->
  sessions_get sv sid = Some s ->
  isPlaying s = false ->
  truthy (trim transcript) = true ->
  onSttData sid transcript true sv
  = addTask (TurnAwaitAI sid transcript)
      (emit (FxInference transcript (leadName conn) (leadPhone conn))
         (updSession sid (set_isPlaying true)
            (updSession sid (push_transcript (trim transcript)) sv))).
Proof.
  intros Hc Hs Hp Ht. unfold onSttData.
  rewrite Hc, Hs, Ht, (truthy_trim _ Ht), Hp. reflexivity.
Qed.


(** Interim results and empty final results change nothing. *)
Lemma onSttData_ignored (sv : State) (sid : SessionId) (transcript : string)
    (isFinal : bool) :
  isFinal && truthy (trim transcript) = false ->
  onSttData sid transcript isFinal sv = sv.
Proof.
  intros H. unfold onSttData. destruct (conns sv !! sid); [|reflexivity].
  destruct isFinal; [|reflexivity]. cbn in H. rewrite H.
  rewrite andb_false_r. reflexivity.
Qed.

(** *** Stored outcome *)

Ltac break_match :=
  match goal with
  | |- context [match ?x with _ => _ end] => destruct x eqn:?
  end.

Lemma storeOutcome_heap_some (sv : State) (sid : SessionId) (o : Outcome) (k : OutcomeType) :
  type o = Some k ->
  heap (storeOutcome sid o sv) = alter (set_outcome (Some o)) sid (heap sv).
Proof. intros H. unfold storeOutcome. rewrite H. repeat break_match; reflexivity. Qed.

Lemma storeOutcome_none (sv : State) (sid : SessionId) (o : Outcome) :
  type o = None -> storeOutcome sid o sv = sv.
Proof. intros H. unfold storeOutcome. rewrite H. reflexivity. Qed.

Lemma storeOutcome_heap (sv : State) (sid sid' : SessionId) (o : Outcome) :
  heap (storeOutcome sid o sv) !! sid'
  = match type o with
    | Some _ =>
        if decide (sid = sid') then set_outcome (Some o) <$> heap sv !! sid'
        else heap sv !! sid'
    | None => heap sv !! sid'
    end.
Proof.
  destruct (type o) eqn:E.
  - rewrite (storeOutcome_heap_some _ _ _ _ E), lookup_alter.
    case_decide; subst; reflexivity.
  - rewrite storeOutcome_none by assumption. reflexivity.
Qed.

Lemma storeOutcome_frame (sv : State) (sid : SessionId) (o : Outcome) :
  sessions (storeOutcome sid o sv) = sessions sv /\
  conns (storeOutcome sid o sv) = conns sv /\
  tasks (storeOutcome sid o sv) = tasks sv /\
  effects (storeOutcome sid o sv) = effects sv.
Proof. unfold storeOutcome. repeat break_match; proj_simpl; auto. Qed.

Lemma tasks_storeOutcome (sv : State) (sid : SessionId) (o : Outcome) :
  tasks (storeOutcome sid o sv) = tasks sv.
Proof. apply storeOutcome_frame. Qed.



Lemma sessions_storeOutcome (sv : State) (sid : SessionId) (o : Outcome) :
  sessions (storeOutcome sid o sv) = sessions sv.
Proof. apply storeOutcome_frame. Qed.


(** What a step does to the stored outcome of the session object [sid]:
    a classification with a kind other than [none] replaces it, whether
    or not one was stored before; nothing else touches it. *)
Lemma outcome_after_step (sv : State) (ev : Event) (sid : SessionId) (s : Session) :
  heap sv !! sid = Some s ->
  outcome <$> heap (step sv ev) !! sid
  = Some (match classification sv ev sid with
          | Some o => match type o with Some _ => Some o | None => outcome s end
          | None => outcome s
          end).
Proof.
  intros Hh. destruct ev as [c n p|c ss cs|c p|c rs|c|c t f|i r]; cbn [step classification].
  - unfold onConnection. destruct (heap sv !! c) eqn:E; [rewrite Hh; reflexivity|].
    proj_simpl. rewrite lookup_insert_ne by congruence. rewrite Hh. reflexivity.
  - unfold onStart. repeat break_match; proj_simpl; rewrite ?lookup_alter;
      repeat case_decide; subst; rewrite ?Hh; reflexivity.
  - unfold onMedia. repeat break_match; proj_simpl; rewrite Hh; reflexivity.
  - unfold onStop. repeat break_match; proj_simpl; rewrite Hh; reflexivity.
  - unfold onClose. repeat break_match; proj_simpl; rewrite ?lookup_alter;
      repeat case_decide; subst; rewrite ?Hh; reflexivity.
  - unfold onSttData. repeat break_match; proj_simpl; rewrite ?lookup_alter;
      repeat case_decide; subst; rewrite ?Hh; reflexivity.
  - unfold resume.
    destruct (tasks sv !! i) as [[|c t|c|c j|c|c j|c|c j]|];
      destruct r as [[text|]|[audio|]|sink]; proj_simpl;
      try (rewrite Hh; reflexivity);
      try (rewrite ?lookup_alter; repeat case_decide; subst; rewrite ?Hh; reflexivity).
    + rewrite storeOutcome_heap.
      case_decide; subst; cbv beta iota;
        destruct (type (analyzeOutcome t text)); try case_decide;
        try congruence; rewrite Hh; reflexivity.
    + destruct (sessions_get sv c); proj_simpl; rewrite ?lookup_alter;
        repeat case_decide; subst; rewrite ?Hh; reflexivity.
Qed.

(** C1 (the claim fails): the first turn stores [scheduled]; the reply of
    the second turn is classified [hangup] and replaces it. *)
Lemma first_outcome_overwritten :
  outcome <$> heap demoSecondTurn !! "s1" = Some (Some bookedOutcome) /\
  outcome <$> heap (step demoSecondTurn (EResolve 2 (RAI (Resolved "Understood. HANGUP"))))
                !! "s1" = Some (Some endedOutcome) /\
  ~ first_outcome_wins.
Proof.
  split; [vm_compute; reflexivity|]. split; [vm_compute; reflexivity|].
  intros Hwins.
  destruct (heap demoSecondTurn !! "s1") as [s|] eqn:Es; [|vm_compute in Es; discriminate].
  destruct (heap (step demoSecondTurn (EResolve 2 (RAI (Resolved "Understood. HANGUP"))))
              !! "s1") as [s'|] eqn:Es'; [|vm_compute in Es'; discriminate].
  assert (Ho : outcome s = Some bookedOutcome)
    by (vm_compute in Es; injection Es as <-; reflexivity).
  assert (Ho' : outcome s' = Some endedOutcome)
    by (vm_compute in Es'; injection Es' as <-; reflexivity).
  specialize (Hwins _ _ _ _ _ _ Es Ho ltac:(discriminate) Es').
  rewrite Ho' in Hwins. clear - Hwins. discriminate.
Qed.

(** C1 (amended): after any step, the outcome stored on a session is the
    classification that step made for it when that has a kind other than
    [none] -- it replaces whatever was stored, so the latest such
    classification wins -- and is unchanged otherwise: a classification of
    kind [none] and every other event leave it alone. *)
Theorem latest_classification_wins (sv : State) (ev : Event) (sid : SessionId)
    (s : Session) :
  heap sv !! sid = Some s ->
  exists s', heap (step sv ev) !! sid = Some s' /\
    outcome s' = match classification sv ev sid with
                 | Some o => match type o with Some _ => Some o | None => outcome s end
                 | None => outcome s
                 end.
Proof.
  intros Hh. pose proof (outcome_after_step sv ev sid s Hh) as H.
  destruct (heap (step sv ev) !! sid) as [s'|]; [|discriminate].
  exists s'. split; [reflexivity|]. cbn in H. congruence.
Qed.

(** The step that classifies the second turn of the demo call. *)
Lemma latest_classification_wins_witness :
  heap demoSecondTurn !! "s1"
    = Some {| transcripts := ["Tuesday at 2pm works"; "okay bye"]; closed := false;
              acceptedFirstMedia := true; streamSid := Some "MZ1";
              callSid := Some "CA1"; isPlaying := true;
              outcome := Some bookedOutcome |} /\
  exists s',
    heap (step demoSecondTurn (EResolve 2 (RAI (Resolved "Understood. HANGUP")))) !! "s1"
      = Some s' /\
    outcome s' = Some endedOutcome.
Proof.
  split; [vm_compute; reflexivity|].
  exact (latest_classification_wins demoSecondTurn
           (EResolve 2 (RAI (Resolved "Understood. HANGUP"))) "s1" _
           ltac:(vm_compute; reflexivity)).
Defined.

(** *** Resuming a suspended handler *)




Lemma resume_stop_tts (sv : State) (i : nat) (sid : SessionId) (audio : list Z) :
  tasks sv !! i = Some (StopAwaitTTS sid) ->
  resume i (RTTS (Resolved audio)) sv
  = setTask i (StopAwaitSend sid (sendMediaPrepare sv (Some sid) (Some audio))) sv.
Proof. intros H. unfold resume. rewrite H. reflexivity. Qed.

Lemma resume_stop_sent (sv : State) (i : nat) (sid : SessionId) (job : SendJob)
    (sink : nat -> SinkObs) :
  tasks sv !! i = Some (StopAwaitSend sid job) ->
  resume i (RSent sink) sv
  = setTask i TDone (stopFinish sid (emit (FxPlayback sid (sendMediaRun job sink)) sv)).
Proof. intros H. unfold resume. rewrite H. reflexivity. Qed.

(** The slot of the newest task, after it has been overwritten. *)
Lemma insert_last_task (ts : list Task) (t t' : Task) :
  <[length ts := t']> (ts ++ [t])%list = (ts ++ [t'])%list.
Proof.
  rewrite insert_app_r_alt by lia. rewrite Nat.sub_diag. reflexivity.
Qed.

(** [sendMedia] reads the state only through [sessions.get]. *)
Lemma sendMediaPrepare_ext (sv sv' : State) (ws : option SessionId)
    (pcmBuffer : option (list Z)) :
  (forall sid, ws = Some sid ->
     streamSid <$> sessions_get sv' sid = streamSid <$> sessions_get sv sid) ->
  sendMediaPrepare sv' ws pcmBuffer = sendMediaPrepare sv ws pcmBuffer.
Proof.
  intros H. unfold sendMediaPrepare. destruct ws as [sid|]; [|reflexivity].
  destruct pcmBuffer as [pcm|]; [|reflexivity].
  destruct (Nat.eqb (length pcm) 0); [reflexivity|].
  destruct (linear16ToMuLaw pcm); [|reflexivity].
  specialize (H sid eq_refl).
  destruct (sessions_get sv' sid), (sessions_get sv sid); cbn in H; congruence.
Qed.

(** *** The flag on the exit paths *)

(** Starting a turn raises the flag. *)
Lemma turn_start_raises_flag (sv : State) (sid : SessionId) (conn : Conn) (s : Session)
    (transcript : string) :
  conns sv !! sid = Some conn ->
  sessions_get sv sid = Some s ->
  isPlaying s = false ->
  truthy (trim transcript) = true ->
  playbackActive (step sv (EStt sid transcript true)) sid = true /\
  tasks (step sv (EStt sid transcript true)) = (tasks sv ++ [TurnAwaitAI sid transcript])%list.
Proof.
  intros Hc Hs Hp Ht. cbn [step]. rewrite (onSttData_idle sv sid conn s) by assumption.
  unfold playbackActive.
  rewrite sessions_get_addTask, sessions_get_emit, !sessions_get_updSession_eq, Hs.
  split; reflexivity.
Qed.

(** Starting the greeting raises the flag. *)
Lemma greeting_start_raises_flag (sv : State) (sid : SessionId) (conn : Conn) (s : Session)
    (ssid csid : option string) :
  conns sv !! sid = Some conn ->
  sessions_get sv sid = Some s ->
  playbackActive (step sv (EStart sid ssid csid)) sid = true /\
  tasks (step sv (EStart sid ssid csid)) = (tasks sv ++ [GreetAwaitTTS sid])%list.
Proof.
  intros Hc Hs. cbn [step]. unfold onStart. rewrite Hc, Hs.
  destruct (truthyOpt ssid), (truthyOpt csid);
    rewrite ?sessions_get_updSession_eq, ?Hs; cbn [fmap option_fmap option_map];
    rewrite ?sessions_get_updSession_eq, ?Hs; cbn [fmap option_fmap option_map];
    unfold playbackActive;
    rewrite sessions_get_addTask, sessions_get_emit, !sessions_get_updSession_eq, ?Hs;
    split; reflexivity.
Qed.

(** Every exit of a conversation turn or of a greeting leaves the flag of
    the session object lowered, with one exception: when the greeting's
    synthesis fails, the flag is lowered only if the session is still in
    the [sessions] map. *)
Lemma playback_flag_reset_on_exit (sv : State) (i : nat) (t : Task) (sid : SessionId)
    (r : Resolution) (s' : Session) :
  tasks sv !! i = Some t ->
  turnOf t = Some sid \/ greetingOf t = Some sid ->
  tasks (step sv (EResolve i r)) !! i = Some TDone ->
  (t = GreetAwaitTTS sid -> r = RTTS Rejected -> sid ∈ sessions sv) ->
  heap (step sv (EResolve i r)) !! sid = Some s' ->
  isPlaying s' = false.
Proof.
  intros Ht Hown Hdone Hexc Hs'.
  pose proof (lookup_lt_Some _ _ _ Ht) as Hlt.
  cbn [step] in *. unfold resume in *. rewrite Ht in *.
  destruct t as [|c tr|c|c j|c|c j|c|c j]; cbn in Hown;
    destruct Hown as [Hown|Hown]; try discriminate; injection Hown as ->;
    destruct r as [[text|]|[audio|]|sink]; proj_simpl;
    rewrite ?tasks_storeOutcome in Hdone;
    try (rewrite list_lookup_insert_eq in Hdone by assumption; discriminate);
    try congruence;
    try (rewrite lookup_alter_eq in Hs';
         destruct (heap sv !! sid); [injection Hs' as <-; reflexivity | discriminate]).
  destruct (sessions_get sv sid) eqn:E; proj_simpl.
  - rewrite lookup_alter_eq in Hs'.
    destruct (heap sv !! sid); [injection Hs' as <-; reflexivity | discriminate].
  - specialize (Hexc eq_refl eq_refl). unfold sessions_get in E.
    rewrite decide_True in E by assumption. congruence.
Qed.

(** Read through the guard [sess && sess.isPlaying], the flag is down
    after every exit of a turn or of a greeting. *)
Lemma playbackActive_reset_on_exit (sv : State) (i : nat) (t : Task) (sid : SessionId)
    (r : Resolution) :
  tasks sv !! i = Some t ->
  turnOf t = Some sid \/ greetingOf t = Some sid ->
  tasks (step sv (EResolve i r)) !! i = Some TDone ->
  playbackActive (step sv (EResolve i r)) sid = false.
Proof.
  intros Ht Hown Hdone. unfold playbackActive.
  destruct (sessions_get (step sv (EResolve i r)) sid) as [s'|] eqn:E; [|reflexivity].
  apply sessions_get_Some in E as [Hin Hs'].
  apply (playback_flag_reset_on_exit sv i t sid r s' Ht Hown Hdone); [|assumption].
  intros -> ->. cbn [step] in Hin. unfold resume in Hin. rewrite Ht in Hin.
  destruct (sessions_get sv sid); exact Hin.
Qed.

(** *** A turn in flight *)










(** *** Transcripts *)

(** What a step does to the transcripts of the session object [sid]: the
    only addition is the trimmed text of a non-empty final result. *)
Lemma transcripts_after_step (sv : State) (ev : Event) (sid : SessionId) (s : Session) :
  heap sv !! sid = Some s ->
  transcripts <$> heap (step sv ev) !! sid
  = Some (transcripts s ++ recorded sv ev sid)%list.
Proof.
  intros Hh.
  assert (Hsame : forall sv', heap sv' !! sid = heap sv !! sid ->
            transcripts <$> heap sv' !! sid = Some (transcripts s ++ [])%list)
    by (intros sv' ->; rewrite Hh, app_nil_r; reflexivity).
  destruct ev as [c n p|c ss cs|c p|c rs|c|c t f|i r]; cbn [step recorded].
  - unfold onConnection. destruct (heap sv !! c) eqn:E; [apply Hsame; reflexivity|].
    apply Hsame. proj_simpl. apply lookup_insert_ne. congruence.
  - rewrite app_nil_r. unfold onStart.
    repeat break_match; proj_simpl; rewrite ?lookup_alter;
      repeat case_decide; subst; rewrite ?Hh; reflexivity.
  - apply Hsame. unfold onMedia. repeat break_match; reflexivity.
  - apply Hsame. unfold onStop. repeat break_match; reflexivity.
  - rewrite app_nil_r. unfold onClose.
    repeat break_match; proj_simpl; rewrite ?lookup_alter;
      repeat case_decide; subst; rewrite ?Hh; reflexivity.
  - unfold onSttData, sessions_get. destruct f; cbn [andb].
    2:{ destruct (conns sv !! c), (decide (c = sid)); rewrite app_nil_r, Hh; reflexivity. }
    destruct (decide (c = sid)) as [->|Hne].
    + destruct (truthy (trim t)) eqn:Et.
      * rewrite (truthy_trim _ Et). cbn [andb].
        destruct (conns sv !! sid) eqn:Ec.
        -- rewrite (bool_decide_true (is_Some (Some c))) by eauto. cbn [andb].
           destruct (decide (sid ∈ sessions sv)) as [Hin|Hout].
           ++ rewrite bool_decide_true by assumption. rewrite Hh.
              destruct (isPlaying s); proj_simpl; rewrite ?lookup_alter_eq, Hh; reflexivity.
           ++ rewrite bool_decide_false by assumption. rewrite app_nil_r, Hh. reflexivity.
        -- rewrite (bool_decide_false (is_Some None)) by (intros [? ?]; discriminate).
           rewrite app_nil_r, Hh. reflexivity.
      * rewrite andb_false_r. cbn [andb].
        destruct (conns sv !! sid); rewrite app_nil_r, Hh; reflexivity.
    + rewrite app_nil_r.
      repeat break_match; proj_simpl; rewrite ?lookup_alter_ne by assumption;
        rewrite Hh; reflexivity.
  - rewrite app_nil_r. unfold resume.
    destruct (tasks sv !! i) as [[|c t|c|c j|c|c j|c|c j]|];
      destruct r as [[text|]|[audio|]|sink]; proj_simpl;
      try (rewrite Hh; reflexivity);
      try (rewrite ?lookup_alter; repeat case_decide; subst; rewrite ?Hh; reflexivity).
    + rewrite storeOutcome_heap.
      destruct (type (analyzeOutcome t text)); try case_decide; subst;
        rewrite Hh; reflexivity.
    + destruct (sessions_get sv c); proj_simpl; rewrite ?lookup_alter;
        repeat case_decide; subst; rewrite ?Hh; reflexivity.
Qed.

(** *** The stop event *)

Lemma playbacks_emit (sv : State) (e : Effect) :
  playbacks (emit e sv) = (if isPlayback e then 1 else 0) + playbacks sv.
Proof.
  unfold playbacks. proj_simpl. rewrite List.filter_app, length_app. cbn [List.filter].
  destruct (isPlayback e); cbn [length]; lia.
Qed.

(** The stop handler when it plays nothing: the recognizer is ended and
    the session leaves the [sessions] map. *)
Lemma stopFinish_quiet (sv : State) (sid : SessionId) :
  tasks (stopFinish sid sv) = tasks sv /\
  effects (stopFinish sid sv) = (effects sv ++ [FxRecognizerEnd sid])%list /\
  playbacks (stopFinish sid sv) = playbacks sv /\
  sessions_get (stopFinish sid sv) sid = None.
Proof.
  unfold stopFinish. split; [reflexivity|]. split; [reflexivity|]. split.
  - change (playbacks (sessions_delete sid (emit (FxRecognizerEnd sid) sv)))
      with (playbacks (emit (FxRecognizerEnd sid) sv)).
    rewrite playbacks_emit. reflexivity.
  - apply sessions_get_delete.
Qed.

(** C7: the stop event of a registered session. With no transcript
    recorded and the socket open, it issues exactly one synthesis request,
    for the apology phrase, and the synthesized audio is played exactly
    once; with no transcript and the socket not open, or with at least one
    transcript, it synthesizes and plays nothing. In every case the
    session then leaves the [sessions] map. *)
Theorem silence_fallback (sv : State) (sid : SessionId) (conn : Conn) (s : Session)
    (wsReadyState : Z) :
  conns sv !! sid = Some conn ->
  sessions_get sv sid = Some s ->
  let stopped := step sv (EStop sid wsReadyState) in
  let i := length (tasks sv) in
  (transcripts s = [] -> wsReadyState = 1%Z ->
     tasks stopped = (tasks sv ++ [StopAwaitTTS sid])%list /\
     effects stopped = (effects sv ++ [FxSynthesize fallbackText])%list /\
     forall (audio : list Z) (sink : nat -> SinkObs),
       let final := run stopped [EResolve i (RTTS (Resolved audio));
                                 EResolve i (RSent sink)] in
       effects final
       = (effects sv ++ [FxSynthesize fallbackText;
                         FxPlayback sid (sendMedia sv (Some sid) (Some audio) sink);
                         FxRecognizerEnd sid])%list /\
       playbacks final = S (playbacks sv) /\
       tasks final = (tasks sv ++ [TDone])%list /\
       sessions_get final sid = None) /\
  (transcripts s = [] -> wsReadyState <> 1%Z ->
     tasks stopped = tasks sv /\
     effects stopped = (effects sv ++ [FxRecognizerEnd sid])%list /\
     playbacks stopped = playbacks sv /\
     sessions_get stopped sid = None) /\
  (transcripts s <> [] ->
     tasks stopped = tasks sv /\
     effects stopped = (effects sv ++ [FxRecognizerEnd sid])%list /\
     playbacks stopped = playbacks sv /\
     sessions_get stopped sid = None).
Proof.
  intros Hc Hs stopped i. subst stopped i. cbn [step]. unfold onStop. rewrite Hc, Hs.
  split; [|split].
  - intros Hts ->. rewrite Hts. cbn [length Nat.ltb Nat.leb negb Z.eqb Pos.eqb].
    split; [reflexivity|]. split; [reflexivity|].
    intros audio sink. cbn [run fold_left step].
    rewrite (resume_stop_tts _ _ sid)
      by apply (tasks_addTask_lookup (emit (FxSynthesize fallbackText) sv)).
    rewrite (resume_stop_sent _ _ sid (sendMediaPrepare sv (Some sid) (Some audio)))
      by (proj_simpl; rewrite insert_last_task; apply list_lookup_middle; reflexivity).
    proj_simpl. split; [|split; [|split]].
    + rewrite <- !app_assoc. reflexivity.
    + unfold playbacks. proj_simpl. rewrite !List.filter_app, !length_app. cbn. lia.
    + rewrite list_insert_insert_eq. apply insert_last_task.
    + apply sessions_get_delete.
  - intros Hts Hrs. rewrite Hts. cbn [length Nat.ltb Nat.leb negb].
    destruct (Z.eqb_spec wsReadyState 1) as [E|_]; [contradiction|]. cbn [negb].
    apply stopFinish_quiet.
  - intros Hts. destruct (transcripts s) as [|t ts]; [contradiction|].
    cbn [length Nat.ltb Nat.leb negb]. apply stopFinish_quiet.
Qed.

(** The demo call stopped right after its greeting, on an open socket. *)
Lemma silence_fallback_witness :
  conns demoGreeted !! "s1" = Some demoConn /\
  sessions_get demoGreeted "s1" = Some demoIdle /\
  let stopped := step demoGreeted (EStop "s1" 1) in
  effects stopped = (effects demoGreeted ++ [FxSynthesize fallbackText])%list /\
  forall (audio : list Z) (sink : nat -> SinkObs),
    playbacks (run stopped [EResolve 1 (RTTS (Resolved audio)); EResolve 1 (RSent sink)])
    = S (playbacks demoGreeted).
Proof.
  assert (H1 : conns demoGreeted !! "s1" = Some demoConn) by (vm_compute; reflexivity).
  assert (H2 : sessions_get demoGreeted "s1" = Some demoIdle) by (vm_compute; reflexivity).
  destruct (silence_fallback demoGreeted "s1" demoConn demoIdle 1 H1 H2) as [Hopen _].
  destruct (Hopen eq_refl eq_refl) as (_ & Hfx & Hplay).
  split; [exact H1|]. split; [exact H2|]. split; [exact Hfx|].
  intros audio sink. apply (Hplay audio sink).
Defined.

(** When the synthesis of the apology fails, the handler logs the error:
    nothing is played and the session is released all the same. *)
Lemma fallback_synthesis_failure (sv : State) (i : nat) (sid : SessionId) :
  tasks sv !! i = Some (StopAwaitTTS sid) ->
  let final := step sv (EResolve i (RTTS Rejected)) in
  effects final = (effects sv ++ [FxRecognizerEnd sid])%list /\
  tasks final = <[i := TDone]> (tasks sv) /\
  sessions_get final sid = None.
Proof.
  intros H final. subst final. cbn [step]. unfold resume. rewrite H.
  split; [reflexivity|]. split; [reflexivity|].
  rewrite sessions_get_setTask. apply sessions_get_delete.
Qed.

(** *** Evaluations on concrete calls *)

(** C3 (the code departs from the claim): a session whose [start] event
    carried no stream id is greeted all the same, in a frame without a
    [streamSid] key; and a session that has its stream id but was removed
    from the [sessions] map by a [stop] event while a turn was being
    synthesized sends that turn's frame without the key as well. *)
Theorem frames_sent_without_streamSid :
  streamSid <$> sessions_get demoNoStreamSid "s2" = Some None /\
  effects (step demoNoStreamSid (EResolve 0 (RSent alwaysOpen)))
  = [FxSynthesize (greetingText "Lee");
     FxPlayback "s2" {| sent := [{| frameStreamSid := None; payload := [255%Z] |}];
                        loggedError := false |}] /\
  streamSid <$> heap demoStoppedMidTurn !! "s1" = Some (Some "MZ1") /\
  last (effects (run demoStoppedMidTurn
                   [EResolve 1 (RTTS (Resolved tinyAudio)); EResolve 1 (RSent alwaysOpen)]))
  = Some (FxPlayback "s1" {| sent := [{| frameStreamSid := None; payload := [255%Z] |}];
                             loggedError := false |}).
Proof. vm_compute. repeat split; reflexivity. Qed.

(** C6 (the code departs from the claim): the connection closes while the
    greeting is being synthesized, then the synthesis fails. The greeting
    task ends, and the flag it raised on the session object stays raised:
    its [catch] looks the session up again and finds none. *)
Theorem greeting_failure_leaves_flag_set :
  tasks demoClosedMidGreeting !! 0 = Some (GreetAwaitTTS "s3") /\
  isPlaying <$> heap demoClosedMidGreeting !! "s3" = Some true /\
  tasks (step demoClosedMidGreeting (EResolve 0 (RTTS Rejected))) !! 0 = Some TDone /\
  isPlaying <$> heap (step demoClosedMidGreeting (EResolve 0 (RTTS Rejected))) !! "s3"
  = Some true.
Proof. vm_compute. repeat split; reflexivity. Qed.

End ServerFacts.

(** ** More on the codec *)

Module CodecMore.
Import Codec.
Local Open Scope Z_scope.

(** A check made on every element of a range holds for every number in it. *)
Lemma zrange_forallb (p : Z -> bool) (count : nat) (start x : Z) :
  List.forallb p (zrange count start) = true ->
  start <= x < start + Z.of_nat count ->
  p x = true.
Proof.
  intros Hall Hx. rewrite List.forallb_forall in Hall.
  apply Hall. apply CodecFacts.zrange_complete. exact Hx.
Qed.

Lemma linear16ToMuLaw_even (n : nat) :
  forall pcm, length pcm = (2 * n)%nat ->
  exists mu, linear16ToMuLaw pcm = Some mu /\ length mu = n.
Proof.
  induction n as [|n IH]; intros pcm Hn.
  - destruct pcm; [|cbn in Hn; lia]. exists []. split; reflexivity.
  - destruct pcm as [|lo [|hi rest]]; try (cbn in Hn; lia).
    destruct (IH rest ltac:(cbn in Hn; lia)) as (mu & E & Hl).
    cbn [linear16ToMuLaw]. rewrite E. eexists. split; [reflexivity|]. cbn. lia.
Qed.

Lemma linear16ToMuLaw_odd (n : nat) :
  forall pcm, length pcm = S (2 * n) -> linear16ToMuLaw pcm = None.
Proof.
  induction n as [|n IH]; intros pcm Hn.
  - destruct pcm as [|lo [|hi rest]]; try (cbn in Hn; lia). reflexivity.
  - destruct pcm as [|lo [|hi rest]]; try (cbn in Hn; lia).
    cbn [linear16ToMuLaw]. rewrite (IH rest) by (cbn in Hn; lia). reflexivity.
Qed.

(** The encoder fails exactly on buffers with an odd number of bytes (the
    last [readInt16LE] is out of range); otherwise it returns one byte per
    16-bit sample. *)
Theorem linear16ToMuLaw_defined_iff_even (pcm : list Z) :
  (linear16ToMuLaw pcm = None <-> Nat.Odd (length pcm)) /\
  (forall mu, linear16ToMuLaw pcm = Some mu -> length pcm = (2 * length mu)%nat).
Proof.
  destruct (Nat.Even_or_Odd (length pcm)) as [[n Hn]|[n Hn]].
  - destruct (linear16ToMuLaw_even n pcm ltac:(lia)) as (mu & E & Hl). split.
    + split; [rewrite E; discriminate|].
      intros [m Hm]. lia.
    + intros mu' E'. rewrite E in E'. injection E' as <-. lia.
  - replace (2 * n + 1)%nat with (S (2 * n)) in Hn by lia.
    pose proof (linear16ToMuLaw_odd n pcm Hn) as E. split.
    + split; [intros _; exists n; lia | intros _; exact E].
    + intros mu E'. rewrite E in E'. discriminate.
Qed.

(** Encoding in pieces: cut at a sample boundary, the encoding of a buffer
    is the encoding of the first part followed by that of the second, and
    it fails when either part fails. *)
Theorem linear16ToMuLaw_app (a b : list Z) :
  Nat.Even (length a) ->
  linear16ToMuLaw (a ++ b)
  = match linear16ToMuLaw a, linear16ToMuLaw b with
    | Some ma, Some mb => Some (ma ++ mb)
    | _, _ => None
    end.
Proof.
  intros [n Hn]. revert a Hn. induction n as [|n IH]; intros a Hn.
  - destruct a; [|cbn in Hn; lia]. cbn [app linear16ToMuLaw].
    destruct (linear16ToMuLaw b); reflexivity.
  - destruct a as [|lo [|hi rest]]; try (cbn in Hn; lia).
    cbn [app linear16ToMuLaw]. rewrite (IH rest) by (cbn in Hn; lia).
    destruct (linear16ToMuLaw rest), (linear16ToMuLaw b); reflexivity.
Qed.

Lemma linear16ToMuLaw_app_witness :
  Nat.Even (length [0; 0]) /\
  linear16ToMuLaw ([0; 0] ++ [255; 127])
  = match linear16ToMuLaw [0; 0], linear16ToMuLaw [255; 127] with
    | Some ma, Some mb => Some (ma ++ mb)
    | _, _ => None
    end.
Proof.
  assert (H : Nat.Even (length [0; 0])) by (exists 1%nat; reflexivity).
  exact (conj H (linear16ToMuLaw_app [0; 0] [255; 127] H)).
Defined.

(** Bit 7 of the code carries the sign: a sample and its opposite get
    codes that differ in that bit only, non-negative samples get codes of
    128 and more, negative samples codes below 128. *)
Theorem encodeSample_sign (x : Z) :
  0 < x <= 32767 ->
  encodeSample (- x) = encodeSample x - 128 /\
  128 <= encodeSample x <= 255 /\
  0 <= encodeSample (- x) <= 127.
Proof.
  intros Hx.
  assert (Hall : List.forallb
            (fun y => (encodeSample (- y) =? encodeSample y - 128)
                      && (128 <=? encodeSample y) && (encodeSample y <=? 255))
            (zrange (Z.to_nat 32767) 1) = true) by (vm_compute; reflexivity).
  pose proof (zrange_forallb _ _ _ x Hall ltac:(lia)) as H. cbv beta in H.
  apply andb_prop in H as [H H3]. apply andb_prop in H as [H1 H2].
  apply Z.eqb_eq in H1. apply Z.leb_le in H2. apply Z.leb_le in H3. lia.
Qed.

Lemma encodeSample_sign_witness :
  0 < 1000 <= 32767 /\
  encodeSample (- 1000) = encodeSample 1000 - 128 /\
  128 <= encodeSample 1000 <= 255 /\
  0 <= encodeSample (- 1000) <= 127.
Proof.
  assert (H : 0 < 1000 <= 32767) by lia.
  exact (conj H (encodeSample_sign 1000 H)).
Defined.

Lemma encodeSample_step (x : Z) :
  0 <= x < 32767 -> encodeSample (x + 1) <= encodeSample x.
Proof.
  intros Hx.
  assert (Hall : List.forallb (fun y => encodeSample (y + 1) <=? encodeSample y)
                   (zrange (Z.to_nat 32767) 0) = true) by (vm_compute; reflexivity).
  pose proof (zrange_forallb _ _ _ x Hall ltac:(lia)) as H. cbv beta in H.
  apply Z.leb_le in H. exact H.
Qed.

Lemma encodeSample_clipped (x : Z) : CLIP <= x -> encodeSample x = 128.
Proof.
  intros Hx. unfold CLIP in Hx. unfold encodeSample.
  destruct (Z.ltb_spec x 0) as [|_]; [lia|].
  destruct (Z.ltb_spec CLIP x) as [_|Hle].
  - reflexivity.
  - unfold CLIP in Hle. replace x with 32635 by lia. reflexivity.
Qed.

(** The law is order-reversing on the non-negative samples: a louder
    sample never gets a larger code, and from the clip level 32635 on
    every sample gets the same code, 128. *)
Theorem encodeSample_antitone (x y : Z) :
  0 <= x <= y ->
  encodeSample y <= encodeSample x /\
  (32635 <= x -> encodeSample x = 128 /\ encodeSample y = 128).
Proof.
  intros [Hx Hxy]. split.
  - destruct (Z.le_gt_cases 32635 x) as [Hbig|Hsmall].
    + rewrite !encodeSample_clipped by (unfold CLIP; lia). lia.
    + assert (Hmono : forall d, 0 <= d -> x + d <= 32767 ->
                encodeSample (x + d) <= encodeSample x).
      { intros d Hd. pattern d. apply natlike_ind; [| |exact Hd].
        - intros _. rewrite Z.add_0_r. lia.
        - intros d' Hd' IH Hle.
          replace (x + Z.succ d') with ((x + d') + 1) by lia.
          pose proof (encodeSample_step (x + d') ltac:(lia)). lia. }
      destruct (Z.le_gt_cases y 32767) as [Hy|Hy].
      * replace y with (x + (y - x)) by lia. apply Hmono; lia.
      * rewrite (encodeSample_clipped y) by (unfold CLIP; lia).
        rewrite <- (encodeSample_clipped 32767) by (unfold CLIP; lia).
        replace 32767 with (x + (32767 - x)) by lia. apply Hmono; lia.
  - intros Hbig. rewrite !encodeSample_clipped by (unfold CLIP; lia). split; reflexivity.
Qed.

Lemma encodeSample_antitone_witness :
  0 <= 100 <= 20000 /\
  encodeSample 20000 <= encodeSample 100 /\
  (32635 <= 100 -> encodeSample 100 = 128 /\ encodeSample 20000 = 128).
Proof.
  assert (H : 0 <= 100 <= 20000) by lia.
  exact (conj H (encodeSample_antitone 100 20000 H)).
Defined.

(** On bytes the decoder is odd in the sign bit and never leaves
    [-7931, 7931]: its clamp to the 16-bit range is never exercised. *)
Theorem decodeSample_range (b : Z) :
  0 <= b <= 255 ->
  decodeSample (Z.lxor b 128) = - decodeSample b /\
  -7931 <= decodeSample b <= 7931.
Proof.
  intros Hb.
  assert (Hall : List.forallb
            (fun c => (decodeSample (Z.lxor c 128) =? - decodeSample c)
                      && (-7931 <=? decodeSample c) && (decodeSample c <=? 7931))
            (zrange 256 0) = true) by (vm_compute; reflexivity).
  pose proof (zrange_forallb _ _ _ b Hall ltac:(lia)) as H. cbv beta in H.
  apply andb_prop in H as [H H3]. apply andb_prop in H as [H1 H2].
  apply Z.eqb_eq in H1. apply Z.leb_le in H2. apply Z.leb_le in H3. lia.
Qed.

Lemma decodeSample_range_witness :
  0 <= 128 <= 255 /\
  decodeSample (Z.lxor 128 128) = - decodeSample 128 /\
  -7931 <= decodeSample 128 <= 7931.
Proof.
  assert (H : 0 <= 128 <= 255) by lia.
  exact (conj H (decodeSample_range 128 H)).
Defined.

Lemma readInt16LE_writeInt16LE (v : Z) :
  int16 v ->
  readInt16LE (Z.land v 0xFF) (Z.land (Z.shiftr v 8) 0xFF) = v.
Proof.
  intros Hv.
  assert (Hall : List.forallb
            (fun w => readInt16LE (Z.land w 0xFF) (Z.land (Z.shiftr w 8) 0xFF) =? w)
            allSamples = true) by (vm_compute; reflexivity).
  rewrite List.forallb_forall in Hall.
  apply Z.eqb_eq. apply Hall. apply CodecFacts.allSamples_complete. exact Hv.
Qed.

(** Decoding a buffer and encoding the result again never fails, and acts
    byte by byte: the two bytes [muLawTo16BitPCM] writes for a sample are
    read back by [linear16ToMuLaw] as that sample. *)
Theorem linear16ToMuLaw_muLawTo16BitPCM (muLawBuffer : list Z) :
  length (muLawTo16BitPCM muLawBuffer) = (2 * length muLawBuffer)%nat /\
  linear16ToMuLaw (muLawTo16BitPCM muLawBuffer)
  = Some (List.map (fun b => encodeSample (decodeSample b)) muLawBuffer).
Proof.
  induction muLawBuffer as [|b bs [IHl IHe]]; [split; reflexivity|].
  unfold muLawTo16BitPCM in *. cbn [flat_map writeInt16LE app length List.map linear16ToMuLaw].
  split; [cbn [length] in *; lia|].
  rewrite IHe, readInt16LE_writeInt16LE by apply CodecFacts.decodeSample_int16.
  reflexivity.
Qed.

End CodecMore.

(** ** More on the frame pacer *)

Module PacerMore.
Import Text Codec Server Runs.

(** Against the loop on a sink that never fails, the loop on any sink
    sends the frames of the rounds that go through before the first
    failure, and nothing after. *)
Lemma sendLoop_prefix (sink : nat -> SinkObs) (muLaw : list Z) (streamSid : option string) :
  forall fuel offset sentChunks frames full,
    sendLoop fuel sink muLaw streamSid offset sentChunks = Some frames ->
    sendLoop fuel alwaysOpen muLaw streamSid offset sentChunks = Some full ->
    frames = take (openRounds sink sentChunks (length full)) full.
Proof.
  induction fuel as [|fuel IH]; intros offset k frames full Hs Hf; [discriminate|].
  cbn [sendLoop] in Hs, Hf.
  destruct (Nat.ltb offset (length muLaw)).
  - change (readyState (alwaysOpen k)) with 1%Z in Hf.
    change (sendThrows (alwaysOpen k)) with false in Hf.
    cbn [Z.eqb Pos.eqb negb] in Hf.
    destruct (sendLoop fuel alwaysOpen muLaw streamSid (offset + chunkSize) (S k))
      as [full'|] eqn:Ef; [|discriminate].
    injection Hf as <-. cbn [length openRounds]. unfold usable.
    destruct (Z.eqb (readyState (sink k)) 1); cbn [negb andb] in *;
      [|injection Hs as <-; reflexivity].
    destruct (sendThrows (sink k)); cbn [negb] in *; [injection Hs as <-; reflexivity|].
    destruct (sendLoop fuel sink muLaw streamSid (offset + chunkSize) (S k))
      as [frames'|] eqn:Es; [|discriminate].
    injection Hs as <-. cbn [take]. f_equal. apply (IH _ _ _ _ Es Ef).
  - injection Hs as <-. injection Hf as <-. reflexivity.
Qed.

(** Whatever the socket does during a playback, what [sendMedia] sends is
    a prefix of what it sends when nothing fails: the frames of the rounds
    before the first round that finds the socket not open or whose send
    throws. No frame follows that round. *)
Theorem sendMedia_stops_at_first_failure (sv : State) (ws : option SessionId)
    (pcmBuffer : option (list Z)) (sink : nat -> SinkObs) :
  sent (sendMedia sv ws pcmBuffer sink)
  = take (openRounds sink 0 (length (sent (sendMedia sv ws pcmBuffer alwaysOpen))))
      (sent (sendMedia sv ws pcmBuffer alwaysOpen)).
Proof.
  unfold sendMedia.
  destruct (sendMediaPrepare sv ws pcmBuffer) as [| |muLaw streamSid]; try reflexivity.
  cbn [sendMediaRun sent].
  destruct (PacerFacts.sendLoop_terminates sink muLaw streamSid (S (length muLaw)) 0 0
              ltac:(lia)) as [frames Es].
  destruct (PacerFacts.sendLoop_terminates alwaysOpen muLaw streamSid (S (length muLaw)) 0 0
              ltac:(lia)) as [full Ef].
  rewrite Es, Ef. cbn [default]. apply (sendLoop_prefix _ _ _ _ _ _ _ _ Es Ef).
Qed.

(** A non-empty buffer with an odd number of bytes is never played: the
    encoder throws, [sendMedia] logs the error in its outer [catch] and
    returns without having sent a frame. *)
Theorem sendMedia_odd_buffer (sv : State) (ws : SessionId) (pcmBuffer : list Z)
    (sink : nat -> SinkObs) :
  Nat.Odd (length pcmBuffer) ->
  sendMedia sv (Some ws) (Some pcmBuffer) sink = {| sent := []; loggedError := true |}.
Proof.
  intros [n Hn]. unfold sendMedia, sendMediaPrepare.
  destruct pcmBuffer as [|b rest]; [cbn in Hn; lia|]. cbn [length Nat.eqb].
  rewrite (CodecMore.linear16ToMuLaw_odd n) by (cbn [length] in *; lia).
  reflexivity.
Qed.

Lemma sendMedia_odd_buffer_witness :
  Nat.Odd (length [0; 0; 7]%Z) /\
  sendMedia demoGreeted (Some "s1"%string) (Some [0; 0; 7]%Z) alwaysOpen
  = {| sent := []; loggedError := true |}.
Proof.
  assert (H : Nat.Odd (length [0; 0; 7]%Z)) by (exists 1; reflexivity).
  exact (conj H (sendMedia_odd_buffer demoGreeted "s1"%string [0; 0; 7]%Z alwaysOpen H)).
Defined.

(** A playback that starts while its session is in the [sessions] map
    with a stream id tags every frame it sends with that id, whatever the
    audio and whatever the socket does. *)
Theorem playback_frames_tagged (sv : State) (ws : SessionId) (sess : Session)
    (sid : string) (pcmBuffer : option (list Z)) (sink : nat -> SinkObs) :
  sessions_get sv ws = Some sess ->
  streamSid sess = Some sid ->
  truthy sid = true ->
  forall f, In f (sent (sendMedia sv (Some ws) pcmBuffer sink)) ->
            frameStreamSid f = Some sid.
Proof.
  intros Hs Hsid Ht f Hin.
  pose proof (PacerFacts.sendMedia_carries_streamSid sv ws sess sid pcmBuffer sink Hs Hsid Ht)
    as Hall.
  rewrite List.Forall_forall in Hall. apply Hall. exact Hin.
Qed.

Lemma playback_frames_tagged_witness :
  sessions_get demoGreeted "s1"%string = Some demoIdle /\
  streamSid demoIdle = Some "MZ1"%string /\
  truthy "MZ1" = true /\
  forall f, In f (sent (sendMedia demoGreeted (Some "s1"%string) (Some longAudio) alwaysOpen)) ->
            frameStreamSid f = Some "MZ1"%string.
Proof.
  assert (H1 : sessions_get demoGreeted "s1"%string = Some demoIdle)
    by (vm_compute; reflexivity).
  assert (H2 : streamSid demoIdle = Some "MZ1"%string) by reflexivity.
  assert (H3 : truthy "MZ1" = true) by reflexivity.
  exact (conj H1 (conj H2 (conj H3
           (playback_frames_tagged demoGreeted "s1"%string demoIdle "MZ1"%string
              (Some longAudio) alwaysOpen H1 H2 H3)))).
Defined.

End PacerMore.

(** ** Invariants of the server's runs *)

Module RunFacts.
Import Text Codec Classifier Server Runs.
Import ServerFacts.
Local Open Scope string_scope.

Lemma run_app (sv : State) (evs evs' : list Event) :
  run sv (evs ++ evs')%list = run (run sv evs) evs'.
Proof. unfold run. apply List.fold_left_app. Qed.

Lemma run_snoc (sv : State) (evs : list Event) (ev : Event) :
  run sv (evs ++ [ev])%list = step (run sv evs) ev.
Proof. rewrite run_app. reflexivity. Qed.

(** A property of the start state that every step keeps holds in every
    reachable state. *)
Lemma reachable_ind (P : State -> Prop) :
  P initial ->
  (forall sv ev, reachable sv -> P sv -> P (step sv ev)) ->
  forall sv, reachable sv -> P sv.
Proof.
  intros H0 Hstep sv [evs ->].
  induction evs as [|ev evs IH] using List.rev_ind; [exact H0|].
  rewrite run_snoc. apply Hstep; [exists evs; reflexivity | exact IH].
Qed.

Lemma reachable_run (sv : State) (evs : list Event) :
  reachable sv -> reachable (run sv evs).
Proof.
  intros [evs0 ->]. exists (evs0 ++ evs)%list. rewrite run_app. reflexivity.
Qed.

Lemma reachable_step (sv : State) (ev : Event) :
  reachable sv -> reachable (step sv ev).
Proof. apply (reachable_run sv [ev]). Qed.

Lemma reachable_demoGreeted : reachable demoGreeted.
Proof. unfold demoGreeted. apply reachable_run. exists []. reflexivity. Qed.

Lemma reachable_demoBooked : reachable demoBooked.
Proof. unfold demoBooked. apply reachable_run. exact reachable_demoGreeted. Qed.

(** *** Session objects *)

(** Session objects are never dropped from the heap. *)
Lemma heap_step_Some (sv : State) (ev : Event) (sid : SessionId) (s : Session) :
  heap sv !! sid = Some s -> exists s', heap (step sv ev) !! sid = Some s'.
Proof.
  intros Hh. pose proof (transcripts_after_step sv ev sid s Hh) as H.
  destruct (heap (step sv ev) !! sid) as [s'|]; [eauto | discriminate].
Qed.

(** An object appears on the heap only through a new connection, as a
    fresh session. *)
Lemma heap_step_new (sv : State) (ev : Event) (sid : SessionId) (s' : Session) :
  heap sv !! sid = None ->
  heap (step sv ev) !! sid = Some s' ->
  s' = newSession /\ exists name phone, ev = EConnect sid name phone.
Proof.
  intros Hn Hs'.
  destruct ev as [c n p|c ss cs|c p|c rs|c|c t f|i r]; cbn [step] in Hs'.
  - unfold onConnection in Hs'. destruct (heap sv !! c) eqn:E; [congruence|].
    proj_simpl. destruct (decide (c = sid)) as [->|Hne].
    + rewrite lookup_insert_eq in Hs'. injection Hs' as <-. eauto.
    + rewrite lookup_insert_ne in Hs' by assumption. congruence.
  - exfalso. revert Hs'. unfold onStart.
    repeat break_match; proj_simpl; rewrite ?lookup_alter;
      repeat case_decide; subst; rewrite ?Hn; discriminate.
  - exfalso. revert Hs'. unfold onMedia.
    repeat break_match; proj_simpl; rewrite Hn; discriminate.
  - exfalso. revert Hs'. unfold onStop.
    repeat break_match; proj_simpl; rewrite Hn; discriminate.
  - exfalso. revert Hs'. unfold onClose.
    repeat break_match; proj_simpl; rewrite ?lookup_alter;
      repeat case_decide; subst; rewrite ?Hn; discriminate.
  - exfalso. revert Hs'. unfold onSttData.
    repeat break_match; proj_simpl; rewrite ?lookup_alter;
      repeat case_decide; subst; rewrite ?Hn; discriminate.
  - exfalso. revert Hs'. unfold resume.
    destruct (tasks sv !! i) as [[|c t|c|c j|c|c j|c|c j]|];
      destruct r as [[text|]|[audio|]|sink]; proj_simpl;
      try (rewrite Hn; discriminate);
      try (rewrite ?lookup_alter; repeat case_decide; subst; rewrite ?Hn; discriminate).
    + rewrite storeOutcome_heap.
      destruct (type (analyzeOutcome t text)); try case_decide; subst;
        rewrite Hn; discriminate.
    + destruct (sessions_get sv c); proj_simpl; rewrite ?lookup_alter;
        repeat case_decide; subst; rewrite ?Hn; discriminate.
Qed.

(** A session that has an object is never put back into the [sessions]
    map. *)
Lemma sessions_step_shrinks (sv : State) (ev : Event) (sid : SessionId) (s : Session) :
  heap sv !! sid = Some s ->
  sid ∈ sessions (step sv ev) -> sid ∈ sessions sv.
Proof.
  intros Hh.
  destruct ev as [c n p|c ss cs|c p|c rs|c|c t f|i r]; cbn [step].
  - unfold onConnection. destruct (heap sv !! c) eqn:E; [tauto|].
    proj_simpl. intros Hin. apply elem_of_union in Hin as [Hin|Hin]; [|exact Hin].
    apply elem_of_singleton in Hin. congruence.
  - unfold onStart. repeat break_match; proj_simpl; tauto.
  - unfold onMedia. repeat break_match; proj_simpl; tauto.
  - unfold onStop. repeat break_match; proj_simpl; try tauto;
      intros Hin; apply elem_of_difference in Hin; tauto.
  - unfold onClose. repeat break_match; proj_simpl; try tauto;
      intros Hin; apply elem_of_difference in Hin; tauto.
  - unfold onSttData. repeat break_match; proj_simpl; tauto.
  - unfold resume.
    destruct (tasks sv !! i) as [[|c t|c|c j|c|c j|c|c j]|];
      destruct r as [[text|]|[audio|]|sink]; proj_simpl; try tauto;
      try (intros Hin; apply elem_of_difference in Hin; tauto).
    + rewrite sessions_storeOutcome. tauto.
    + destruct (sessions_get sv c); proj_simpl; tauto.
Qed.

(** What the socket and the recognizer deliver for a session that is not
    in the [sessions] map changes nothing. *)
Lemma step_unregistered (sv : State) (ev : Event) (sid : SessionId) :
  sid ∉ sessions sv -> addressedTo sid ev -> step sv ev = sv.
Proof.
  intros Hout Hev.
  assert (Hget : sessions_get sv sid = None)
    by (unfold sessions_get; rewrite decide_False by assumption; reflexivity).
  destruct ev as [c n p|c ss cs|c p|c rs|c|c t f|i r]; cbn in Hev; try contradiction;
    subst c; cbn [step].
  - unfold onStart. destruct (conns sv !! sid); [|reflexivity].
    cbv zeta. repeat (rewrite Hget; cbv beta iota). reflexivity.
  - unfold onStop. rewrite Hget. destruct (conns sv !! sid); reflexivity.
  - unfold onClose. rewrite Hget. destruct (conns sv !! sid); reflexivity.
  - unfold onSttData. rewrite Hget. destruct (conns sv !! sid); [|reflexivity].
    destruct (f && truthy t && truthy (trim t)); reflexivity.
Qed.

(** Once a [stop] or [close] has removed a session from the [sessions]
    map it never comes back, and from then on the connection's start,
    stop and close events and the recognizer's results are ignored: no
    transcript is recorded, no turn starts, nothing is played. *)
Theorem removed_session_stays_removed (sv : State) (sid : SessionId) (s : Session)
    (evs : list Event) :
  heap sv !! sid = Some s ->
  sid ∉ sessions sv ->
  (sid ∉ sessions (run sv evs)) /\
  forall ev, addressedTo sid ev -> step (run sv evs) ev = run sv evs.
Proof.
  intros Hh Hout.
  assert (H : (sid ∉ sessions (run sv evs)) /\
              exists s', heap (run sv evs) !! sid = Some s').
  { induction evs as [|ev evs [IHout [s' IHh]]] using List.rev_ind; [eauto|].
    rewrite run_snoc. split.
    - intros Hin. apply IHout. apply (sessions_step_shrinks _ ev sid s' IHh Hin).
    - apply (heap_step_Some _ ev sid s' IHh). }
  destruct H as [Hout' _]. split; [exact Hout'|].
  intros ev Hev. apply (step_unregistered _ ev sid Hout' Hev).
Qed.

Lemma removed_session_stays_removed_witness :
  heap demoClosedMidGreeting !! "s3"
    = Some {| transcripts := []; closed := true; acceptedFirstMedia := true;
              streamSid := Some "MZ3"; callSid := Some "CA3"; isPlaying := true;
              outcome := None |} /\
  ("s3" ∉ sessions demoClosedMidGreeting) /\
  ("s3" ∉ sessions (run demoClosedMidGreeting [EStt "s3" "hello" true])) /\
  forall ev, addressedTo "s3" ev ->
    step (run demoClosedMidGreeting [EStt "s3" "hello" true]) ev
    = run demoClosedMidGreeting [EStt "s3" "hello" true].
Proof.
  assert (H1 : heap demoClosedMidGreeting !! "s3"
    = Some {| transcripts := []; closed := true; acceptedFirstMedia := true;
              streamSid := Some "MZ3"; callSid := Some "CA3"; isPlaying := true;
              outcome := None |}) by (vm_compute; reflexivity).
  assert (H2 : "s3" ∉ sessions demoClosedMidGreeting)
    by (apply (bool_decide_unpack _); vm_compute; exact I).
  exact (conj H1 (conj H2
           (removed_session_stays_removed demoClosedMidGreeting "s3" _
              [EStt "s3" "hello" true] H1 H2))).
Defined.

(** *** Fields that only move one way *)

(** One step never clears a stream id or a call id, never takes back
    [acceptedFirstMedia] or [closed], and writes an id only from a [start]
    event that carries it. *)
Lemma ids_after_step (sv : State) (ev : Event) (sid : SessionId) (s : Session) :
  heap sv !! sid = Some s ->
  exists s', heap (step sv ev) !! sid = Some s' /\
    (streamSid s' = streamSid s \/
     truthyOpt (streamSid s') = true /\ exists cs, ev = EStart sid (streamSid s') cs) /\
    (callSid s' = callSid s \/
     truthyOpt (callSid s') = true /\ exists ss, ev = EStart sid ss (callSid s')) /\
    (acceptedFirstMedia s = true -> acceptedFirstMedia s' = true) /\
    (closed s = true -> closed s' = true).
Proof.
  intros Hh.
  assert (Hsame : forall h : gmap string Session, h !! sid = Some s ->
            exists s', h !! sid = Some s' /\
              (streamSid s' = streamSid s \/
               truthyOpt (streamSid s') = true /\
               exists cs, ev = EStart sid (streamSid s') cs) /\
              (callSid s' = callSid s \/
               truthyOpt (callSid s') = true /\
               exists ss, ev = EStart sid ss (callSid s')) /\
              (acceptedFirstMedia s = true -> acceptedFirstMedia s' = true) /\
              (closed s = true -> closed s' = true))
    by (intros h H; exists s; auto).
  pose proof (Hsame _ Hh) as Hsv.
  assert (Hupd : forall c, c <> sid -> forall f h, h !! sid = Some s ->
                   alter f c h !! sid = Some s)
    by (intros c Hne f h H; rewrite lookup_alter_ne by assumption; exact H).
  destruct ev as [c n p|c ss cs|c p|c rs|c|c t f|i r]; cbn [step].
  - unfold onConnection. destruct (heap sv !! c) eqn:E; [exact Hsv|].
    apply Hsame. proj_simpl. rewrite lookup_insert_ne by congruence. assumption.
  - unfold onStart. destruct (conns sv !! c); [|exact Hsv]. cbv zeta.
    destruct (sessions_get sv c) as [s0|] eqn:E0;
      [|rewrite E0; cbv beta iota; rewrite E0; exact Hsv].
    destruct (truthyOpt ss) eqn:Ess, (truthyOpt cs) eqn:Ecs;
      rewrite ?sessions_get_updSession_eq, ?E0; cbn [fmap option_fmap option_map];
      rewrite ?sessions_get_updSession_eq, ?E0; cbn [fmap option_fmap option_map];
      proj_simpl;
      (destruct (decide (c = sid)) as [->|Hne]; [|apply Hsame; auto]);
      rewrite ?lookup_alter_eq, Hh; cbn [fmap option_fmap option_map]; eexists;
      (split; [reflexivity|]); cbn; repeat split; eauto 6.
  - unfold onMedia. repeat break_match; exact Hsv.
  - unfold onStop. repeat break_match; exact Hsv.
  - unfold onClose. repeat break_match; try exact Hsv.
    proj_simpl. destruct (decide (c = sid)) as [->|Hne]; [|apply Hsame; auto].
    rewrite lookup_alter_eq, Hh. eexists. split; [reflexivity|]. cbn. auto.
  - unfold onSttData. repeat break_match; try exact Hsv; proj_simpl;
      (destruct (decide (c = sid)) as [->|Hne]; [|apply Hsame; auto]);
      rewrite ?lookup_alter_eq, Hh; cbn [fmap option_fmap option_map]; eexists;
      (split; [reflexivity|]); cbn; auto.
  - unfold resume.
    destruct (tasks sv !! i) as [[|c t|c|c j|c|c j|c|c j]|];
      destruct r as [[text|]|[audio|]|sink]; try exact Hsv;
      try (proj_simpl;
           (destruct (decide (c = sid)) as [->|Hne]; [|apply Hsame; auto]);
           rewrite ?lookup_alter_eq, Hh; cbn [fmap option_fmap option_map]; eexists;
           (split; [reflexivity|]); cbn; auto).
    + proj_simpl. rewrite storeOutcome_heap.
      destruct (type (analyzeOutcome t text)); [|exact Hsv].
      destruct (decide (c = sid)) as [->|Hne]; [|exact Hsv].
      rewrite Hh. eexists. split; [reflexivity|]. cbn. auto.
    + destruct (sessions_get sv c); [|exact Hsv].
      proj_simpl. destruct (decide (c = sid)) as [->|Hne]; [|apply Hsame; auto].
      rewrite lookup_alter_eq, Hh. eexists. split; [reflexivity|]. cbn. auto.
Qed.

(** The ids that Twilio's [start] event writes on a session are never
    cleared afterwards, and neither are the marks [acceptedFirstMedia] and
    [closed]: whatever happens later, a stream id or call id that is set
    stays set (a later [start] can only replace it by another non-empty
    one). *)
Theorem session_ids_never_cleared (sv : State) (sid : SessionId) (s : Session)
    (evs : list Event) :
  heap sv !! sid = Some s ->
  exists s', heap (run sv evs) !! sid = Some s' /\
    (truthyOpt (streamSid s) = true -> truthyOpt (streamSid s') = true) /\
    (truthyOpt (callSid s) = true -> truthyOpt (callSid s') = true) /\
    (acceptedFirstMedia s = true -> acceptedFirstMedia s' = true) /\
    (closed s = true -> closed s' = true).
Proof.
  intros Hh. induction evs as [|ev evs IH] using List.rev_ind.
  - exists s. auto.
  - destruct IH as (s1 & Hs1 & Hss & Hcs & Hacc & Hcl).
    rewrite run_snoc.
    destruct (ids_after_step (run sv evs) ev sid s1 Hs1)
      as (s' & Hs' & Hss' & Hcs' & Hacc' & Hcl').
    exists s'. split; [exact Hs'|]. repeat split.
    + intros H. destruct Hss' as [->|[Ht _]]; auto.
    + intros H. destruct Hcs' as [->|[Ht _]]; auto.
    + auto.
    + auto.
Qed.

Lemma session_ids_never_cleared_witness :
  heap demoGreeted !! "s1" = Some demoIdle /\
  exists s', heap (run demoGreeted [EStart "s1" None (Some EmptyString); EClose "s1"]) !! "s1"
             = Some s' /\
    (truthyOpt (streamSid demoIdle) = true -> truthyOpt (streamSid s') = true) /\
    (truthyOpt (callSid demoIdle) = true -> truthyOpt (callSid s') = true) /\
    (acceptedFirstMedia demoIdle = true -> acceptedFirstMedia s' = true) /\
    (closed demoIdle = true -> closed s' = true).
Proof.
  split; [vm_compute; reflexivity|].
  exact (session_ids_never_cleared demoGreeted "s1" demoIdle
           [EStart "s1" None (Some EmptyString); EClose "s1"] ltac:(vm_compute; reflexivity)).
Defined.

(** *** Transcripts *)



(** *** Suspended handlers *)

(** A step leaves a suspended handler as it is, unless the step resumes
    that very handler; then it either ends it or moves it to its next
    [await] for the same session. *)
Lemma task_after_step (sv : State) (ev : Event) (j : nat) (t : Task) :
  tasks sv !! j = Some t ->
  tasks (step sv ev) !! j = Some t \/
  exists r t', ev = EResolve j r /\ tasks (step sv ev) !! j = Some t' /\
               (t' = TDone \/ flagOwner t' = flagOwner t).
Proof.
  intros Ht. pose proof (lookup_lt_Some _ _ _ Ht) as Hlt.
  destruct ev as [c n p|c ss cs|c p|c rs|c|c u f|i r]; cbn [step].
  - left. unfold onConnection. repeat break_match; proj_simpl; assumption.
  - left. unfold onStart. repeat break_match; proj_simpl;
      try assumption; apply lookup_app_l_Some; assumption.
  - left. unfold onMedia. repeat break_match; proj_simpl; assumption.
  - left. unfold onStop. repeat break_match; proj_simpl;
      try assumption; apply lookup_app_l_Some; assumption.
  - left. unfold onClose. repeat break_match; proj_simpl; assumption.
  - left. unfold onSttData. repeat break_match; proj_simpl;
      try assumption; apply lookup_app_l_Some; assumption.
  - destruct (decide (i = j)) as [->|Hne].
    + unfold resume. rewrite Ht.
      destruct t as [|c u|c|c job|c|c job|c|c job];
        destruct r as [[text|]|[audio|]|sink];
        try (left; assumption);
        try (right; do 2 eexists; split; [reflexivity|]; proj_simpl;
             rewrite ?tasks_storeOutcome;
             split; [apply list_lookup_insert_eq; assumption|]; auto; fail).
      right. do 2 eexists. split; [reflexivity|].
      destruct (sessions_get sv c); proj_simpl;
        (split; [apply list_lookup_insert_eq; assumption|]); auto.
    + left. unfold resume.
      destruct (tasks sv !! i) as [[|c u|c|c job|c|c job|c|c job]|];
        destruct r as [[text|]|[audio|]|sink]; try assumption;
        try (proj_simpl; rewrite ?tasks_storeOutcome;
             rewrite list_lookup_insert_ne by assumption; assumption).
      destruct (sessions_get sv c); proj_simpl;
        rewrite list_lookup_insert_ne by assumption; assumption.
Qed.

(** A handler waiting for inference was started, in this step or before,
    by a final recognizer result of its session. *)
Lemma turn_task_origin (sv : State) (ev : Event) (j : nat) (sid : SessionId) (u : string) :
  tasks (step sv ev) !! j = Some (TurnAwaitAI sid u) ->
  tasks sv !! j = Some (TurnAwaitAI sid u) \/
  ev = EStt sid u true /\ recorded sv ev sid = [trim u] /\ is_Some (heap sv !! sid).
Proof.
  assert (Hsnoc : forall t, (tasks sv ++ [t])%list !! j = Some (TurnAwaitAI sid u) ->
            t <> TurnAwaitAI sid u -> tasks sv !! j = Some (TurnAwaitAI sid u)).
  { intros t H Hne. apply lookup_app_Some in H as [H|[_ H]]; [exact H|].
    exfalso. destruct (j - length (tasks sv)) as [|k]; cbn in H; [|discriminate].
    congruence. }
  assert (Hins : forall i t, <[i := t]> (tasks sv) !! j = Some (TurnAwaitAI sid u) ->
            t <> TurnAwaitAI sid u -> tasks sv !! j = Some (TurnAwaitAI sid u)).
  { intros i t H Hne. destruct (decide (i = j)) as [->|Hij].
    - exfalso. apply list_lookup_insert_Some in H as [(_ & H & _)|[Hc _]]; congruence.
    - rewrite list_lookup_insert_ne in H by assumption. exact H. }
  destruct ev as [c n p|c ss cs|c p|c rs|c|c t f|i r]; cbn [step].
  - intros H. left. revert H. unfold onConnection. repeat break_match; proj_simpl; tauto.
  - intros H. left. revert H. unfold onStart. repeat break_match; proj_simpl; try tauto;
      intros H; apply (Hsnoc _ H); discriminate.
  - intros H. left. revert H. unfold onMedia. repeat break_match; proj_simpl; tauto.
  - intros H. left. revert H. unfold onStop. repeat break_match; proj_simpl; try tauto;
      intros H; apply (Hsnoc _ H); discriminate.
  - intros H. left. revert H. unfold onClose. repeat break_match; proj_simpl; tauto.
  - unfold onSttData. destruct (conns sv !! c) as [conn|] eqn:Ec; [|tauto].
    destruct f; cbn [andb]; [|tauto].
    destruct (truthy t && truthy (trim t)) eqn:Et; [|tauto].
    destruct (sessions_get sv c) as [s|] eqn:Es; [|tauto].
    cbv zeta. destruct (isPlaying s); proj_simpl; [tauto|].
    intros H. apply lookup_app_Some in H as [H|[Hle H]]; [tauto|].
    right. destruct (j - length (tasks sv)) as [|k]; cbn in H; [|discriminate].
    injection H as -> ->. apply andb_prop in Et as [_ Et].
    apply sessions_get_Some in Es as [Hin Hs].
    split; [reflexivity|]. split; [|eauto].
    cbn [recorded]. rewrite decide_True by reflexivity. rewrite Et, Ec.
    rewrite bool_decide_true by eauto. rewrite bool_decide_true by assumption.
    reflexivity.
  - intros H. left. revert H. unfold resume.
    destruct (tasks sv !! i) as [[|c t|c|c job|c|c job|c|c job]|];
      destruct r as [[text|]|[audio|]|sink]; try tauto;
      try (proj_simpl; rewrite ?tasks_storeOutcome;
           intros H; apply (Hins _ _ H); discriminate).
    destruct (sessions_get sv c); proj_simpl;
      intros H; apply (Hins _ _ H); discriminate.
Qed.

(** *** The playback flag *)

(** If the flag of a session object is up after a step, it was up before,
    or the step has just started a greeting or a turn for the session. *)
Lemma flag_after_step (sv : State) (ev : Event) (sid : SessionId) (s s' : Session) :
  heap sv !! sid = Some s ->
  heap (step sv ev) !! sid = Some s' ->
  isPlaying s' = true ->
  isPlaying s = true \/
  exists t, tasks (step sv ev) !! length (tasks sv) = Some t /\ flagOwner t = Some sid.
Proof.
  intros Hh.
  assert (Hsame : forall h : gmap string Session, h !! sid = Some s ->
            h !! sid = Some s' -> isPlaying s' = true -> isPlaying s = true)
    by (intros h H1 H2; congruence).
  pose proof (Hsame _ Hh) as Hsv.
  assert (Hkeep : forall (f : Session -> Session) (h : gmap string Session) c,
            (forall x, isPlaying (f x) = true -> isPlaying x = true) ->
            (forall x, h !! sid = Some x -> isPlaying x = true -> isPlaying s = true) ->
            forall x, alter f c h !! sid = Some x -> isPlaying x = true ->
                      isPlaying s = true).
  { intros f h c Hf Hrec x Hx Hp. rewrite lookup_alter in Hx.
    case_decide; [|eauto]. subst c.
    destruct (h !! sid) as [y|] eqn:Ey; [|discriminate]. injection Hx as <-.
    apply (Hrec y eq_refl). auto. }
  assert (Hbase : forall x, heap sv !! sid = Some x -> isPlaying x = true ->
                            isPlaying s = true) by (intros x Hx; congruence).
  destruct ev as [c n p|c ss cs|c p|c rs|c|c u f|i r]; cbn [step].
  - unfold onConnection. destruct (heap sv !! c) eqn:E; [left; eauto|].
    proj_simpl. rewrite lookup_insert_ne by congruence. left; eauto.
  - unfold onStart. destruct (conns sv !! c); [|left; eauto]. cbv zeta.
    destruct (sessions_get sv c) as [s0|] eqn:E0;
      [|rewrite E0; cbv beta iota; rewrite E0; left; eauto].
    intros Hs' Hflag.
    destruct (decide (c = sid)) as [->|Hne].
    + right. exists (GreetAwaitTTS sid). split; [|reflexivity].
      destruct (truthyOpt ss), (truthyOpt cs);
        rewrite ?sessions_get_updSession_eq, ?E0; cbn [fmap option_fmap option_map];
        rewrite ?sessions_get_updSession_eq, ?E0; cbn [fmap option_fmap option_map];
        proj_simpl; apply list_lookup_middle; reflexivity.
    + left. revert Hs'.
      destruct (truthyOpt ss), (truthyOpt cs);
        rewrite ?sessions_get_updSession_eq, ?E0; cbn [fmap option_fmap option_map];
        rewrite ?sessions_get_updSession_eq, ?E0; cbn [fmap option_fmap option_map];
        proj_simpl; rewrite ?lookup_alter_ne by assumption; intros Hs'; eauto.
  - unfold onMedia. repeat break_match; proj_simpl; left; eauto.
  - unfold onStop. repeat break_match; proj_simpl; left; eauto.
  - unfold onClose. repeat break_match; proj_simpl; try (left; eauto; fail).
    intros Hs' Hflag. left. revert Hs' Hflag. apply Hkeep; auto.
  - unfold onSttData. destruct (conns sv !! c) as [conn|]; [|left; eauto].
    destruct (f && truthy u && truthy (trim u)); [|left; eauto].
    destruct (sessions_get sv c) as [s0|]; [|left; eauto]. cbv zeta.
    destruct (isPlaying s0); proj_simpl.
    + intros Hs' Hflag. left. revert Hs' Hflag. apply Hkeep; auto.
    + intros Hs' Hflag. destruct (decide (c = sid)) as [->|Hne].
      * right. eexists. split; [apply list_lookup_middle; reflexivity|reflexivity].
      * left. rewrite !lookup_alter_ne in Hs' by assumption. eauto.
  - intros Hs' Hflag. left. revert Hs' Hflag. unfold resume.
    destruct (tasks sv !! i) as [[|c u|c|c job|c|c job|c|c job]|];
      destruct r as [[text|]|[audio|]|sink]; proj_simpl; try (apply Hbase);
      try (apply Hkeep; [cbn; intros; congruence | exact Hbase]).
    + rewrite storeOutcome_heap.
      destruct (type (analyzeOutcome u text)); [|apply Hbase].
      case_decide; [|apply Hbase]. subst c. rewrite Hh.
      intros Hs' Hflag. injection Hs' as <-. exact Hflag.
    + destruct (sessions_get sv c); proj_simpl; [|apply Hbase].
      apply Hkeep; [cbn; intros; congruence | exact Hbase].
Qed.

(** In every state the server can reach, a session that is in the
    [sessions] map with its flag [isPlaying] raised has a greeting or a
    conversation turn suspended at an [await]: the flag is never left up
    on a registered session with nothing in flight that would lower it. *)
Theorem raised_flag_has_owner (sv : State) (sid : SessionId) (s : Session) :
  reachable sv ->
  sessions_get sv sid = Some s ->
  isPlaying s = true ->
  exists j t, tasks sv !! j = Some t /\ flagOwner t = Some sid.
Proof.
  intros Hreach. revert sid s.
  apply (reachable_ind (fun sv => forall sid s, sessions_get sv sid = Some s ->
           isPlaying s = true ->
           exists j t, tasks sv !! j = Some t /\ flagOwner t = Some sid));
    [| |exact Hreach].
  - intros sid s H. vm_compute in H. discriminate.
  - clear sv Hreach. intros sv ev _ IH sid s' Hget Hflag.
    pose proof Hget as Hget'.
    apply sessions_get_Some in Hget as [Hin Hs'].
    destruct (heap sv !! sid) as [s|] eqn:Hh.
    + destruct (flag_after_step sv ev sid s s' Hh Hs' Hflag) as [Hp|(t & Ht & Hown)];
        [|eauto].
      assert (Hget0 : sessions_get sv sid = Some s).
      { apply sessions_get_Some. split; [|exact Hh].
        apply (sessions_step_shrinks sv ev sid s Hh Hin). }
      destruct (IH sid s Hget0 Hp) as (j & t & Ht & Hown).
      destruct (task_after_step sv ev j t Ht) as [Hj|(r & t' & -> & Hj & [->|Ho])].
      * eauto.
      * exfalso.
        assert (Hor : turnOf t = Some sid \/ greetingOf t = Some sid).
        { unfold flagOwner in Hown. destruct (turnOf t); [left; congruence|right; exact Hown]. }
        pose proof (playbackActive_reset_on_exit sv j t sid r Ht Hor Hj) as Hreset.
        unfold playbackActive in Hreset. rewrite Hget' in Hreset. congruence.
      * exists j, t'. split; [exact Hj|congruence].
    + destruct (heap_step_new sv ev sid s' Hh Hs') as [-> _]. discriminate.
Qed.

Lemma raised_flag_has_owner_witness :
  reachable demoSecondTurn /\
  exists j t, tasks demoSecondTurn !! j = Some t /\ flagOwner t = Some "s1".
Proof.
  assert (Hr : reachable demoSecondTurn)
    by (unfold demoSecondTurn; apply reachable_step; exact reachable_demoBooked).
  split; [exact Hr|].
  exact (raised_flag_has_owner demoSecondTurn "s1" _ Hr
           ltac:(vm_compute; reflexivity) ltac:(reflexivity)).
Defined.

(** *** Stored outcomes *)

(** In every state the server can reach, an outcome stored on a session
    object has a kind ([scheduled], [hangup] or [irrelevant], never none)
    and is the classification of an utterance recorded in that session's
    transcript together with some reply: outcomes are never invented,
    never copied from another session and never emptied. *)
Theorem stored_outcome_is_a_verdict (sv : State) (sid : SessionId) (s : Session)
    (o : Outcome) :
  reachable sv ->
  heap sv !! sid = Some s ->
  outcome s = Some o ->
  type o <> None /\
  exists u reply, o = analyzeOutcome u reply /\ trim u ∈ transcripts s.
Proof.
  intros Hreach.
  assert (H : (forall j sid u, tasks sv !! j = Some (TurnAwaitAI sid u) ->
                 exists s, heap sv !! sid = Some s /\ trim u ∈ transcripts s) /\
              (forall sid s o, heap sv !! sid = Some s -> outcome s = Some o ->
                 type o <> None /\
                 exists u reply, o = analyzeOutcome u reply /\ trim u ∈ transcripts s));
    [|destruct H as [_ H]; apply H].
  clear sid s o. revert sv Hreach. apply reachable_ind.
  - split; [intros j sid u H; cbn in H; discriminate|].
    intros sid s o H. vm_compute in H. discriminate.
  - intros sv ev _ [IHt IHo]. split.
    + intros j sid u Hj.
      destruct (turn_task_origin sv ev j sid u Hj) as [Hold|(-> & Hrec & [s Hs])].
      * destruct (IHt j sid u Hold) as (s & Hs & Hin).
        pose proof (transcripts_after_step sv ev sid s Hs) as Hts.
        destruct (heap (step sv ev) !! sid) as [s'|]; [|discriminate].
        injection Hts as Hts. exists s'. split; [reflexivity|].
        rewrite Hts. apply elem_of_app. left. exact Hin.
      * pose proof (transcripts_after_step sv (EStt sid u true) sid s Hs) as Hts.
        rewrite Hrec in Hts.
        destruct (heap (step sv (EStt sid u true)) !! sid) as [s'|]; [|discriminate].
        injection Hts as Hts. exists s'. split; [reflexivity|].
        rewrite Hts. apply elem_of_app. right. constructor.
    + intros sid s' o Hs' Ho.
      destruct (heap sv !! sid) as [s|] eqn:Hs.
      * pose proof (transcripts_after_step sv ev sid s Hs) as Hts.
        pose proof (outcome_after_step sv ev sid s Hs) as Hout.
        rewrite Hs' in Hts, Hout. injection Hts as Hts. injection Hout as Hout.
        rewrite Ho in Hout.
        assert (Hold : outcome s = Some o ->
                  type o <> None /\
                  exists u reply, o = analyzeOutcome u reply /\ trim u ∈ transcripts s').
        { intros Hos. destruct (IHo sid s o Hs Hos) as [Hty (u & reply & -> & Hin)].
          split; [exact Hty|]. exists u, reply. split; [reflexivity|].
          rewrite Hts. apply elem_of_app. left. exact Hin. }
        destruct (classification sv ev sid) as [o'|] eqn:Ecl; [|auto].
        destruct (type o') eqn:Ety; [|auto].
        injection Hout as <-. split; [congruence|].
        unfold classification in Ecl.
        destruct ev as [c n p|c ss cs|c p|c rs|c|c t f|i [[text|]|a|k]]; try discriminate.
        destruct (tasks sv !! i) as [[|c u|c|c job|c|c job|c|c job]|] eqn:Ei;
          try discriminate.
        case_decide; [|discriminate]. subst c. injection Ecl as <-.
        exists u, text. split; [reflexivity|].
        destruct (IHt i sid u Ei) as (s0 & Hs0 & Hin).
        rewrite Hts. apply elem_of_app. left. congruence.
      * destruct (heap_step_new sv ev sid s' Hs Hs') as [-> _]. discriminate.
Qed.

Lemma stored_outcome_is_a_verdict_witness :
  reachable demoBooked /\
  bookedOutcome.(type) <> None /\
  exists u reply, bookedOutcome = analyzeOutcome u reply /\
    trim u ∈ ["Tuesday at 2pm works"].
Proof.
  assert (Hr : reachable demoBooked) by exact reachable_demoBooked.
  split; [exact Hr|].
  exact (stored_outcome_is_a_verdict demoBooked "s1"
           {| transcripts := ["Tuesday at 2pm works"]; closed := false;
              acceptedFirstMedia := true; streamSid := Some "MZ1";
              callSid := Some "CA1"; isPlaying := false;
              outcome := Some bookedOutcome |}
           bookedOutcome Hr ltac:(vm_compute; reflexivity) eq_refl).
Defined.

(** *** The end of a conversation turn *)

(** Whichever way a conversation turn ends -- inference fails, synthesis
    fails, or playback has run -- its [finally] lowers the flag on the
    session object itself, also when a [stop] or [close] has meanwhile
    removed the session from the [sessions] map. *)
Theorem turn_exit_lowers_flag (sv : State) (i : nat) (t : Task) (sid : SessionId)
    (r : Resolution) (s : Session) :
  tasks sv !! i = Some t ->
  turnOf t = Some sid ->
  tasks (step sv (EResolve i r)) !! i = Some TDone ->
  heap sv !! sid = Some s ->
  exists s', heap (step sv (EResolve i r)) !! sid = Some s' /\ isPlaying s' = false.
Proof.
  intros Ht Hturn Hdone Hs.
  destruct (heap_step_Some sv (EResolve i r) sid s Hs) as [s' Hs'].
  exists s'. split; [exact Hs'|].
  apply (playback_flag_reset_on_exit sv i t sid r s' Ht (or_introl Hturn) Hdone);
    [|exact Hs'].
  intros ->. discriminate.
Qed.

Lemma turn_exit_lowers_flag_witness :
  exists s', heap (step demoStoppedMidTurn (EResolve 1 (RTTS Rejected))) !! "s1" = Some s' /\
             isPlaying s' = false.
Proof.
  exact (turn_exit_lowers_flag demoStoppedMidTurn 1 (TurnAwaitTTS "s1") "s1"
           (RTTS Rejected) _
           ltac:(vm_compute; reflexivity) eq_refl
           ltac:(vm_compute; reflexivity) ltac:(vm_compute; reflexivity)).
Defined.

End RunFacts.

(** ** The matcher against the patterns' languages *)

Module RegexFacts.
Import Text Regex Classifier Formats.

Lemma matchR_seq {A} (r1 r2 : regex) (st : MState) (k : MState -> option A) :
  matchR (RSeq r1 r2) st k = matchR r1 st (fun st1 => matchR r2 st1 k).
Proof. reflexivity. Qed.

Lemma matchR_group {A} (n : nat) (r : regex) (st : MState) (k : MState -> option A) :
  matchR (RGroup n r) st k = matchR r st (fun st1 => k (setCap n st st1)).
Proof. reflexivity. Qed.

Lemma matchR_wordb {A} (st : MState) (k : MState -> option A) :
  matchR RWordB st k = if atWordBoundary st then k st else None.
Proof. reflexivity. Qed.

Lemma matchR_star {A} (r : regex) (st : MState) (k : MState -> option A) :
  matchR (RStar r) st k = starLoop (matchR r) k (S (length (rest st))) st.
Proof. reflexivity. Qed.

(** Whatever the matcher accepts for [r] before handing over to its
    continuation is a text of [r]'s language, taken from the front of the
    input; captures change only inside groups. *)
Lemma matchR_sound {A} (r : regex) :
  forall (st : MState) (k : MState -> option A) (a : A),
    matchR r st k = Some a ->
    exists st' v, k st' = Some a /\ rest st = (v ++ rest st')%list /\ lang r v /\
                  (hasGroup r = false -> caps st' = caps st).
Proof.
  induction r as [| |c| | | |r1 IH1 r2 IH2|r1 IH1 r2 IH2|r1 IH1|r1 IH1|n r1 IH1];
    intros st k a H.
  - discriminate.
  - exists st, []. repeat split; auto. constructor.
  - cbn in H. unfold step1 in H. destruct (rest st) as [|x xs] eqn:E; [discriminate|].
    destruct (Ascii.eqb (toLowerChar x) (toLowerChar c)) eqn:Ex; [|discriminate].
    apply Ascii.eqb_eq in Ex.
    exists (advance st x xs), [x]. repeat split; auto. constructor. exact Ex.
  - cbn in H. unfold step1 in H. destruct (rest st) as [|x xs] eqn:E; [discriminate|].
    destruct (isDigit x) eqn:Ex; [|discriminate].
    exists (advance st x xs), [x]. repeat split; auto. constructor. exact Ex.
  - cbn in H. unfold step1 in H. destruct (rest st) as [|x xs] eqn:E; [discriminate|].
    destruct (isSpace x) eqn:Ex; [|discriminate].
    exists (advance st x xs), [x]. repeat split; auto. constructor. exact Ex.
  - rewrite matchR_wordb in H. destruct (atWordBoundary st); [|discriminate].
    exists st, []. repeat split; auto. constructor.
  - rewrite matchR_seq in H.
    destruct (IH1 _ _ _ H) as (st1 & v1 & H1 & E1 & L1 & C1).
    destruct (IH2 _ _ _ H1) as (st2 & v2 & H2 & E2 & L2 & C2).
    exists st2, (v1 ++ v2)%list. split; [exact H2|]. split.
    { rewrite E1, E2, app_assoc. reflexivity. }
    split; [constructor; assumption|].
    cbn [hasGroup]. intros Hg. apply orb_false_elim in Hg as [Hg1 Hg2].
    rewrite (C2 Hg2). auto.
  - cbn [matchR] in H. cbn [hasGroup].
    destruct (matchR r1 st k) as [a1|] eqn:E.
    + injection H as <-. destruct (IH1 _ _ _ E) as (st1 & v1 & H1 & E1 & L1 & C1).
      exists st1, v1. repeat split; auto. { apply lang_alt_l; assumption. }
      intros Hg. apply orb_false_elim in Hg as [Hg1 Hg2]. auto.
    + destruct (IH2 _ _ _ H) as (st1 & v1 & H1 & E1 & L1 & C1).
      exists st1, v1. repeat split; auto. { apply lang_alt_r; assumption. }
      intros Hg. apply orb_false_elim in Hg as [Hg1 Hg2]. auto.
  - cbn [matchR] in H. cbn [hasGroup].
    destruct (matchR r1 st k) as [a1|] eqn:E.
    + injection H as <-. destruct (IH1 _ _ _ E) as (st1 & v1 & H1 & E1 & L1 & C1).
      exists st1, v1. repeat split; auto. apply lang_opt_some; assumption.
    + exists st, []. repeat split; auto. constructor.
  - rewrite matchR_star in H. cbn [hasGroup].
    revert H. generalize (S (length (rest st))). intros n. revert st.
    induction n as [|n IHn]; intros st H; cbn [starLoop] in H.
    + exists st, []. repeat split; auto. constructor.
    + destruct (matchR r1 st _) as [a1|] eqn:E in H.
      * injection H as <-. destruct (IH1 _ _ _ E) as (st1 & v1 & H1 & E1 & L1 & C1).
        destruct (Nat.ltb (length (rest st1)) (length (rest st))); [|discriminate].
        destruct (IHn _ H1) as (st2 & v2 & H2 & E2 & L2 & C2).
        exists st2, (v1 ++ v2)%list. split; [exact H2|]. split.
        { rewrite E1, E2, app_assoc. reflexivity. }
        split; [apply lang_star_cons; assumption|].
        intros Hg. rewrite (C2 Hg). auto.
      * exists st, []. repeat split; auto. constructor.
  - rewrite matchR_group in H.
    destruct (IH1 _ _ _ H) as (st1 & v1 & H1 & E1 & L1 & C1).
    exists (setCap n st st1), v1. repeat split; auto.
    + constructor. assumption.
    + cbn [hasGroup]. discriminate.
Qed.

(** A property of the captures of every match found at some position
    holds of the captures [s.match(r)] returns. *)
Lemma searchFrom_sound (r : regex) (P : list (nat * list ascii) -> Prop) :
  (forall st cs, caps st = [] ->
     matchR r st (fun st' => Some (caps st')) = Some cs -> P cs) ->
  forall input before cs, searchFrom r before input = Some cs -> P cs.
Proof.
  intros HP input. induction input as [|x xs IH]; intros before cs H; cbn [searchFrom] in H.
  - destruct (matchR r _ _) as [c|] eqn:E in H; [|discriminate].
    injection H as <-. apply (HP {| prev := before; rest := []; caps := [] |} _ eq_refl E).
  - destruct (matchR r _ _) as [c|] eqn:E in H.
    + injection H as <-.
      apply (HP {| prev := before; rest := x :: xs; caps := [] |} _ eq_refl E).
    + apply (IH _ _ H).
Qed.

(** What a group records when the text it matched is [v]. *)
Lemma captured_text (input v after : list ascii) :
  input = (v ++ after)%list -> take (length input - length after) input = v.
Proof.
  intros ->. rewrite length_app.
  replace (length v + length after - length after) with (length v) by lia.
  apply take_app_length.
Qed.

(** *** Literal words *)

Lemma lang_RStr (w : string) (v : list ascii) :
  lang (RStr w) v ->
  List.map toLowerChar v = List.map toLowerChar (list_ascii_of_string w).
Proof.
  revert v. induction w as [|c w IH]; intros v H; cbn [RStr] in H.
  - inversion H. reflexivity.
  - inversion H as [| | | | |r1 r2 v1 v2 H1 H2| | | | | | |]; subst.
    inversion H1; subst. cbn. f_equal; [assumption|]. apply IH. assumption.
Qed.

Lemma lang_words (ws : list string) (v : list ascii) :
  lang (words ws) v ->
  exists w, In w ws /\
    List.map toLowerChar v = List.map toLowerChar (list_ascii_of_string w).
Proof.
  unfold words. induction ws as [|w ws IH]; cbn [List.map ROneOf]; intros H.
  - inversion H.
  - destruct ws as [|w' ws].
    + exists w. split; [left; reflexivity|]. apply lang_RStr. exact H.
    + inversion H; subst.
      * exists w. split; [left; reflexivity|]. apply lang_RStr. assumption.
      * destruct IH as (w0 & Hin & E); [assumption|].
        exists w0. split; [right; exact Hin|exact E].
Qed.

(** *** Case of single characters *)

Lemma toUpperChar_toLowerChar (x : ascii) : toUpperChar (toLowerChar x) = toUpperChar x.
Proof. destruct x as [[] [] [] [] [] [] [] []]; reflexivity. Qed.

Lemma toLowerChar_idem (x : ascii) : toLowerChar (toLowerChar x) = toLowerChar x.
Proof. destruct x as [[] [] [] [] [] [] [] []]; reflexivity. Qed.

Lemma toLowerChar_colon (x : ascii) : toLowerChar x = toLowerChar ":" -> x = ":"%char.
Proof.
  destruct x as [[] [] [] [] [] [] [] []]; intros H; vm_compute in H;
    first [reflexivity | discriminate].
Qed.

Lemma mapString_list (f : ascii -> ascii) (v : list ascii) :
  mapString f (string_of_list_ascii v) = string_of_list_ascii (List.map f v).
Proof. induction v as [|x v IH]; cbn; [reflexivity|]. rewrite IH. reflexivity. Qed.

Lemma capitalize_lower (v w : list ascii) :
  List.map toLowerChar v = List.map toLowerChar w ->
  capitalize (string_of_list_ascii v) = capitalize (string_of_list_ascii w).
Proof.
  intros E. destruct v as [|x v], w as [|y w]; try discriminate; [reflexivity|].
  cbn in E. injection E as Ex Ev. cbn [string_of_list_ascii capitalize].
  unfold toLowerCase. rewrite !mapString_list, Ev.
  rewrite <- (toUpperChar_toLowerChar x), Ex, toUpperChar_toLowerChar. reflexivity.
Qed.

Lemma toUpperCase_lower (v w : list ascii) :
  List.map toLowerChar v = List.map toLowerChar w ->
  toUpperCase (string_of_list_ascii v) = toUpperCase (string_of_list_ascii w).
Proof.
  intros E. unfold toUpperCase. rewrite !mapString_list. f_equal.
  revert w E. induction v as [|x v IH]; intros [|y w] E; try discriminate; [reflexivity|].
  cbn in E. injection E as Ex Ev. cbn [List.map]. f_equal; [|apply IH; assumption].
  rewrite <- (toUpperChar_toLowerChar x), Ex, toUpperChar_toLowerChar. reflexivity.
Qed.

(** *** Letter case *)

Lemma isDigit_toLowerChar (x : ascii) : isDigit (toLowerChar x) = isDigit x.
Proof. destruct x as [[] [] [] [] [] [] [] []]; reflexivity. Qed.

Lemma isSpace_toLowerChar (x : ascii) : isSpace (toLowerChar x) = isSpace x.
Proof. destruct x as [[] [] [] [] [] [] [] []]; reflexivity. Qed.

Lemma isWordChar_toLowerChar (x : ascii) : isWordChar (toLowerChar x) = isWordChar x.
Proof. destruct x as [[] [] [] [] [] [] [] []]; reflexivity. Qed.

Lemma isDigit_lower_fixed (x : ascii) : isDigit x = true -> toLowerChar x = x.
Proof.
  destruct x as [[] [] [] [] [] [] [] []]; intros H; vm_compute in H;
    first [reflexivity | discriminate].
Qed.

Lemma atWordBoundary_lowerState (st : MState) :
  atWordBoundary (lowerState st) = atWordBoundary st.
Proof.
  unfold atWordBoundary, lowerState. cbn [prev rest]. f_equal.
  - destruct (prev st); cbn; [apply isWordChar_toLowerChar|reflexivity].
  - destruct (rest st); cbn; [reflexivity|apply isWordChar_toLowerChar].
Qed.

Lemma setCap_lowerState (n : nat) (st st1 : MState) :
  lowerState (setCap n st st1) = setCap n (lowerState st) (lowerState st1).
Proof.
  unfold lowerState, setCap. cbn [prev rest caps lowerCaps List.map fst snd].
  rewrite !length_map, <- fmap_take. reflexivity.
Qed.

Lemma step1_lowerState {A B} (g : A -> B) (p p' : ascii -> bool) (st : MState)
    (k : MState -> option A) (k' : MState -> option B) :
  (forall x, p' (toLowerChar x) = p x) ->
  (forall st1, option_map g (k st1) = k' (lowerState st1)) ->
  option_map g (step1 p st k) = step1 p' (lowerState st) k'.
Proof.
  intros Hp Hk. unfold step1. cbn [lowerState rest].
  destruct (rest st) as [|x xs]; [reflexivity|]. cbn [List.map]. rewrite Hp.
  destruct (p x); [|reflexivity]. rewrite Hk. reflexivity.
Qed.

(** The matcher takes the same decisions on a text and on its lower-case
    form; the captures differ by their case only. *)
Lemma matchR_lowerState {A B} (g : A -> B) (r : regex) :
  forall (st : MState) (k : MState -> option A) (k' : MState -> option B),
    (forall st1, option_map g (k st1) = k' (lowerState st1)) ->
    option_map g (matchR r st k) = matchR r (lowerState st) k'.
Proof.
  induction r as [| |c| | | |r1 IH1 r2 IH2|r1 IH1 r2 IH2|r1 IH1|r1 IH1|n r1 IH1];
    intros st k k' Hk.
  - reflexivity.
  - apply Hk.
  - apply step1_lowerState; [|exact Hk]. intros x. rewrite toLowerChar_idem. reflexivity.
  - apply step1_lowerState; [|exact Hk]. apply isDigit_toLowerChar.
  - apply step1_lowerState; [|exact Hk]. apply isSpace_toLowerChar.
  - rewrite !matchR_wordb, atWordBoundary_lowerState.
    destruct (atWordBoundary st); [apply Hk|reflexivity].
  - rewrite !matchR_seq. apply IH1. intros st1. apply IH2. exact Hk.
  - cbn [matchR]. rewrite <- (IH1 st k k' Hk), <- (IH2 st k k' Hk).
    destruct (matchR r1 st k); reflexivity.
  - cbn [matchR]. rewrite <- (IH1 st k k' Hk), <- Hk.
    destruct (matchR r1 st k); reflexivity.
  - rewrite !matchR_star. cbn [lowerState rest]. rewrite length_map.
    generalize (S (length (rest st))). intros n. revert st.
    induction n as [|n IHn]; intros st; cbn [starLoop]; [apply Hk|].
    rewrite <- Hk.
    rewrite <- (IH1 st (fun st1 => if Nat.ltb (length (rest st1)) (length (rest st))
                                    then starLoop (matchR r1) k n st1 else None)).
    + destruct (matchR r1 st _); reflexivity.
    + intros st1. cbn [lowerState rest]. rewrite !length_map.
      destruct (Nat.ltb _ _); [apply IHn|reflexivity].
  - rewrite !matchR_group. apply IH1. intros st1.
    rewrite <- setCap_lowerState. apply Hk.
Qed.

Lemma searchFrom_lower (r : regex) (input : list ascii) (before : option ascii) :
  searchFrom r (option_map toLowerChar before) (List.map toLowerChar input)
  = option_map lowerCaps (searchFrom r before input).
Proof.
  revert before. induction input as [|x xs IH]; intros before; cbn [searchFrom List.map].
  - pose proof (matchR_lowerState lowerCaps r
                  {| prev := before; rest := []; caps := [] |}
                  (fun st => Some (caps st)) (fun st => Some (caps st))
                  (fun _ => eq_refl)) as Hm.
    unfold lowerState in Hm. cbn [prev rest caps lowerCaps List.map] in Hm. rewrite <- Hm.
    destruct (matchR r _ _); reflexivity.
  - pose proof (matchR_lowerState lowerCaps r
                  {| prev := before; rest := x :: xs; caps := [] |}
                  (fun st => Some (caps st)) (fun st => Some (caps st))
                  (fun _ => eq_refl)) as Hm.
    unfold lowerState in Hm. cbn [prev rest caps lowerCaps List.map] in Hm. rewrite <- Hm.
    destruct (matchR r _ _); [reflexivity|]. apply (IH (Some x)).
Qed.

Lemma list_ascii_of_mapString (f : ascii -> ascii) (s : string) :
  list_ascii_of_string (mapString f s) = List.map f (list_ascii_of_string s).
Proof. induction s as [|c s IH]; cbn; [reflexivity|]. rewrite IH. reflexivity. Qed.

(** [s.toLowerCase().match(r)] finds what [s.match(r)] finds, in lower
    case. *)
Lemma regexMatch_toLowerCase (s : string) (r : regex) :
  regexMatch (toLowerCase s) r = option_map lowerCaps (regexMatch s r).
Proof.
  unfold regexMatch, toLowerCase. rewrite list_ascii_of_mapString.
  apply (searchFrom_lower r _ None).
Qed.

Lemma matches_toLowerCase (s : string) (r : regex) :
  matches (toLowerCase s) r = matches s r.
Proof.
  unfold matches. rewrite regexMatch_toLowerCase.
  destruct (regexMatch s r); reflexivity.
Qed.

Lemma capture_lowerCaps (n : nat) (cs : list (nat * list ascii)) :
  capture n (lowerCaps cs) = toLowerCase (capture n cs).
Proof.
  induction cs as [|[i v] cs IH]; cbn [lowerCaps List.map capture fst snd];
    [reflexivity|].
  destruct (Nat.eqb i n); [|exact IH].
  unfold toLowerCase. rewrite mapString_list. reflexivity.
Qed.

Lemma toLowerCase_idem (s : string) : toLowerCase (toLowerCase s) = toLowerCase s.
Proof.
  unfold toLowerCase. induction s as [|c s IH]; cbn; [reflexivity|].
  rewrite toLowerChar_idem, IH. reflexivity.
Qed.

Lemma toLowerCase_app (s t : string) :
  toLowerCase (s ++ t) = (toLowerCase s ++ toLowerCase t)%string.
Proof.
  induction s as [|c s IH]; [reflexivity|].
  change (String (toLowerChar c) (toLowerCase (s ++ t))
          = String (toLowerChar c) (toLowerCase s ++ toLowerCase t))%string.
  rewrite IH. reflexivity.
Qed.

Lemma capitalize_toLowerCase (s : string) : capitalize (toLowerCase s) = capitalize s.
Proof.
  destruct s as [|c s]; [reflexivity|]. cbn [toLowerCase mapString capitalize].
  rewrite toUpperChar_toLowerChar. fold (toLowerCase s). rewrite toLowerCase_idem.
  reflexivity.
Qed.

Lemma toUpperCase_toLowerCase (s : string) : toUpperCase (toLowerCase s) = toUpperCase s.
Proof.
  unfold toUpperCase, toLowerCase. induction s as [|c s IH]; cbn; [reflexivity|].
  rewrite toUpperChar_toLowerChar, IH. reflexivity.
Qed.

End RegexFacts.

(** ** What the classifier reports *)

Module ClassifierMore.
Import Text Regex Classifier Formats RegexFacts.
Local Open Scope string_scope.

Ltac lang_inv :=
  repeat match goal with
  | H : lang (RSeq _ _) _ |- _ => inversion H; subst; clear H
  | H : lang (ROpt _) _ |- _ => inversion H; subst; clear H
  | H : lang RDigit _ |- _ => inversion H; subst; clear H
  | H : lang (RChar _) _ |- _ => inversion H; subst; clear H
  end.

(** The day the day pattern captures, capitalized, is one of the seven
    day names. *)
Lemma dayPattern_capture (s : string) (dm : list (nat * list ascii)) :
  regexMatch s dayPattern = Some dm -> In (capitalize (capture 1 dm)) dayNames.
Proof.
  unfold regexMatch. intros Hm.
  eapply (searchFrom_sound dayPattern (fun cs => In (capitalize (capture 1 cs)) dayNames));
    [|exact Hm].
  clear. intros st cs Hc H.
  unfold dayPattern in H. rewrite matchR_seq, matchR_wordb in H.
  destruct (atWordBoundary st); [|discriminate].
  rewrite matchR_seq, matchR_group in H.
  apply matchR_sound in H as (st1 & v & Hk & E & L & C).
  rewrite matchR_wordb in Hk. destruct (atWordBoundary _); [|discriminate].
  injection Hk as <-. rewrite (captured_text _ _ _ E). cbn [capture Nat.eqb].
  apply lang_words in L as (w & Hin & Ew).
  rewrite (capitalize_lower _ _ Ew).
  cbn [In] in Hin.
  repeat (destruct Hin as [<-|Hin]; [vm_compute; tauto|]). contradiction.
Qed.

Lemma lang_clock (v : list ascii) :
  lang (RSeq (RSeq RDigit (ROpt RDigit))
             (ROpt (RSeq (RChar ":") (RSeq RDigit RDigit)))) v ->
  isClock (string_of_list_ascii v) = true.
Proof.
  intros H. unfold isClock. rewrite list_ascii_of_string_of_list_ascii.
  lang_inv; cbn [app];
    repeat match goal with
    | H : toLowerChar _ = toLowerChar ":" |- _ => apply toLowerChar_colon in H; subst
    | H : isDigit _ = true |- _ => rewrite H; clear H
    end; reflexivity.
Qed.

(** The time pattern captures a clock time and a meridiem that reads
    [AM] or [PM] once upper-cased and stripped of its dots. *)
Lemma timePattern_capture (s : string) (tm : list (nat * list ascii)) :
  regexMatch s timePattern = Some tm ->
  isClock (capture 1 tm) = true /\
  In (removeDots (toUpperCase (capture 2 tm))) meridiems.
Proof.
  unfold regexMatch. intros Hm.
  eapply (searchFrom_sound timePattern
            (fun cs => isClock (capture 1 cs) = true /\
                       In (removeDots (toUpperCase (capture 2 cs))) meridiems));
    [|exact Hm].
  clear. intros st cs Hc H.
  unfold timePattern in H. rewrite matchR_seq, matchR_wordb in H.
  destruct (atWordBoundary st); [|discriminate].
  rewrite matchR_seq, matchR_group in H.
  apply matchR_sound in H as (st1 & v1 & H & E1 & L1 & C1).
  rewrite matchR_seq in H.
  apply matchR_sound in H as (st2 & v2 & H & E2 & L2 & C2).
  rewrite matchR_seq in H. unfold meridiem in H. rewrite matchR_group in H.
  apply matchR_sound in H as (st3 & v3 & H & E3 & L3 & C3).
  rewrite matchR_wordb in H. destruct (atWordBoundary _); [|discriminate].
  injection H as <-. rewrite (captured_text _ _ _ E3).
  assert (Hg3 : forall ws, hasGroup (words ws) = false).
  { clear. unfold words. induction ws as [|w [|w' ws] IH]; cbn [List.map ROneOf hasGroup].
    - reflexivity.
    - induction w; cbn; auto.
    - rewrite orb_false_iff. split; [induction w; cbn; auto | exact IH]. }
  rewrite (C3 (Hg3 _)), (C2 eq_refl). cbn [setCap caps]. rewrite (captured_text _ _ _ E1).
  cbn [capture Nat.eqb]. split; [apply lang_clock; exact L1|].
  apply lang_words in L3 as (w & Hin & Ew).
  rewrite (toUpperCase_lower _ _ Ew).
  cbn [In] in Hin.
  repeat (destruct Hin as [<-|Hin]; [vm_compute; tauto|]). contradiction.
Qed.

Lemma extractSchedulingDetails_shape (userTranscript aiResponse : string) :
  detailsShape (extractSchedulingDetails userTranscript aiResponse).
Proof.
  unfold extractSchedulingDetails. cbv zeta.
  destruct (regexMatch _ dayPattern) as [dm|] eqn:Ed;
    destruct (regexMatch _ timePattern) as [tm|] eqn:Et.
  - apply dayPattern_capture in Ed. apply timePattern_capture in Et as [Hc Hm].
    apply shape_day_time; assumption.
  - apply dayPattern_capture in Ed. apply shape_day; assumption.
  - apply timePattern_capture in Et as [Hc Hm]. apply shape_time; assumption.
  - apply shape_fallback.
Qed.

(** The details extracted for a scheduled meeting always have one of four
    forms: a capitalized day name, a clock time followed by [AM] or [PM],
    the two separated by a space, or the text [Meeting scheduled];
    whatever case and dots the speakers used are normalized away. *)
Theorem extractSchedulingDetails_format (userTranscript aiResponse : string) :
  detailsShape (extractSchedulingDetails userTranscript aiResponse).
Proof. apply extractSchedulingDetails_shape. Qed.

Lemma detailsShape_truthy (d : string) : detailsShape d -> truthy d = true.
Proof.
  assert (Hday : forall day, In day dayNames -> exists c rest, day = String c rest).
  { intros day Hin. cbn [In dayNames] in Hin.
    repeat (destruct Hin as [<-|Hin]; [eauto|]). contradiction. }
  assert (Hclock : forall clock, isClock clock = true -> exists c rest, clock = String c rest).
  { intros [|c rest] H; [discriminate|eauto]. }
  intros [|day Hd|clock mer Hc Hm|day clock mer Hd Hc Hm].
  - reflexivity.
  - destruct (Hday _ Hd) as (c & rest & ->). reflexivity.
  - destruct (Hclock _ Hc) as (c & rest & ->). reflexivity.
  - destruct (Hday _ Hd) as (c & rest & ->). reflexivity.
Qed.

Lemma scheduleScan_spec (patterns : list regex) (userTranscript aiResponse : string) :
  scheduleScan patterns userTranscript aiResponse
  = if existsb (fun pattern => matches aiResponse pattern || matches userTranscript pattern)
         patterns
    then Some (extractSchedulingDetails userTranscript aiResponse) else None.
Proof.
  induction patterns as [|p ps IH]; cbn [scheduleScan existsb]; [reflexivity|].
  destruct (matches aiResponse p || matches userTranscript p); [reflexivity|exact IH].
Qed.

Lemma analyzeOutcome_table (userTranscript aiResponse : string) :
  (type (analyzeOutcome userTranscript aiResponse) = None <->
   includes (toLowerCase aiResponse) "hangup" = false) /\
  (type (analyzeOutcome userTranscript aiResponse) = Some scheduled <->
   includes (toLowerCase aiResponse) "hangup" = true /\
   mentionsSchedule userTranscript aiResponse = true) /\
  match type (analyzeOutcome userTranscript aiResponse) with
  | None => details (analyzeOutcome userTranscript aiResponse) = None
  | Some scheduled =>
      exists d, details (analyzeOutcome userTranscript aiResponse) = Some d /\
                d = extractSchedulingDetails userTranscript aiResponse /\
                detailsShape d /\ d <> EmptyString
  | Some irrelevant =>
      details (analyzeOutcome userTranscript aiResponse) = Some "Lead declined" /\
      existsb (matches (toLowerCase userTranscript)) rejectionPatterns = true
  | Some hangup =>
      details (analyzeOutcome userTranscript aiResponse) = Some "Call ended" /\
      existsb (matches (toLowerCase userTranscript)) rejectionPatterns = false
  end.
Proof.
  pose proof (extractSchedulingDetails_shape userTranscript aiResponse) as Hshape.
  pose proof (detailsShape_truthy _ Hshape) as Htr.
  unfold analyzeOutcome, mentionsSchedule. cbv zeta. rewrite scheduleScan_spec.
  destruct (includes (toLowerCase aiResponse) "hangup").
  - destruct (existsb _ schedulePatterns).
    + cbn [truthyOpt]. rewrite Htr. cbn [type details].
      split; [split; discriminate|]. split; [tauto|].
      eexists. split; [reflexivity|]. split; [reflexivity|]. split; [exact Hshape|].
      intros E. rewrite E in Htr. discriminate.
    + cbn [truthyOpt].
      destruct (existsb (matches (toLowerCase userTranscript)) rejectionPatterns);
        cbn [type details].
      * split; [split; discriminate|]. split; [|auto].
        split; [discriminate|]. intros [_ H]. discriminate.
      * split; [split; discriminate|]. split; [|auto].
        split; [discriminate|]. intros [_ H]. discriminate.
  - cbn [type details]. split; [tauto|]. split; [|reflexivity].
    split; [discriminate|]. intros [H _]. discriminate.
Qed.


(** *** Letter case of the conversation *)

Lemma isClock_lower_fixed (s : string) : isClock s = true -> toLowerCase s = s.
Proof.
  assert (Hd : forall x, isDigit x = true -> toLowerChar x = x)
    by exact isDigit_lower_fixed.
  assert (Hc : forall x, Ascii.eqb x ":" = true -> toLowerChar x = x)
    by (intros x Hx; apply Ascii.eqb_eq in Hx; subst; reflexivity).
  unfold isClock.
  destruct s as [|c1 [|c2 [|c3 [|c4 [|c5 [|c6 s]]]]]]; cbn [list_ascii_of_string];
    intros H; try discriminate; cbn [toLowerCase mapString];
    repeat match type of H with
    | context [isDigit ?x] =>
        let E := fresh "E" in
        destruct (isDigit x) eqn:E;
          [rewrite (Hd x E)
          |exfalso; cbn [andb] in H; rewrite ?andb_false_r in H; cbn [andb] in H;
           discriminate]
    | context [Ascii.eqb ?x ":"] =>
        let E := fresh "E" in
        destruct (Ascii.eqb x ":") eqn:E;
          [rewrite (Hc x E)
          |exfalso; cbn [andb] in H; rewrite ?andb_false_r in H; cbn [andb] in H;
           discriminate]
    end; reflexivity.
Qed.

Lemma extractSchedulingDetails_lower (userTranscript aiResponse : string) :
  extractSchedulingDetails (toLowerCase userTranscript) (toLowerCase aiResponse)
  = extractSchedulingDetails userTranscript aiResponse.
Proof.
  unfold extractSchedulingDetails. cbv zeta.
  change (toLowerCase userTranscript ++ " " ++ toLowerCase aiResponse)
    with (toLowerCase userTranscript ++ toLowerCase " " ++ toLowerCase aiResponse).
  rewrite <- !toLowerCase_app, !regexMatch_toLowerCase.
  destruct (regexMatch _ dayPattern) as [dm|];
    destruct (regexMatch _ timePattern) as [tm|] eqn:Et; cbn [option_map];
    rewrite ?capture_lowerCaps, ?capitalize_toLowerCase, ?toUpperCase_toLowerCase;
    try reflexivity.
  - apply timePattern_capture in Et as [Hc _].
    rewrite (isClock_lower_fixed _ Hc). reflexivity.
  - apply timePattern_capture in Et as [Hc _].
    rewrite (isClock_lower_fixed _ Hc). reflexivity.
Qed.

Lemma analyzeOutcome_lower (userTranscript aiResponse : string) :
  analyzeOutcome (toLowerCase userTranscript) (toLowerCase aiResponse)
  = analyzeOutcome userTranscript aiResponse.
Proof.
  unfold analyzeOutcome. cbv zeta.
  rewrite !toLowerCase_idem, !scheduleScan_spec, extractSchedulingDetails_lower.
  assert (E : forall ps,
            existsb (fun pattern => matches (toLowerCase aiResponse) pattern
                                    || matches (toLowerCase userTranscript) pattern) ps
            = existsb (fun pattern => matches aiResponse pattern
                                      || matches userTranscript pattern) ps).
  { induction ps as [|p ps IH]; cbn [existsb]; [reflexivity|].
    rewrite !matches_toLowerCase, IH. reflexivity. }
  rewrite E. reflexivity.
Qed.

(** The verdict does not depend on letter case: two conversations whose
    utterances and replies differ only in the case of their ASCII letters
    get the same kind and the same details. *)
Theorem analyzeOutcome_ignores_case (userTranscript userTranscript' aiResponse
    aiResponse' : string) :
  toLowerCase userTranscript = toLowerCase userTranscript' ->
  toLowerCase aiResponse = toLowerCase aiResponse' ->
  analyzeOutcome userTranscript aiResponse = analyzeOutcome userTranscript' aiResponse'.
Proof.
  intros Hu Ha.
  rewrite <- (analyzeOutcome_lower userTranscript aiResponse).
  rewrite <- (analyzeOutcome_lower userTranscript' aiResponse').
  rewrite Hu, Ha. reflexivity.
Qed.

Lemma analyzeOutcome_ignores_case_witness :
  analyzeOutcome "TUESDAY at 2 P.M. works" "Booked. HangUp"
  = analyzeOutcome "tuesday AT 2 p.m. Works" "BOOKED. hangup".
Proof.
  exact (analyzeOutcome_ignores_case "TUESDAY at 2 P.M. works" "tuesday AT 2 p.m. Works"
           "Booked. HangUp" "BOOKED. hangup" eq_refl eq_refl).
Defined.

End ClassifierMore.

(** ** The XML escape *)

Module EscapeFacts.
Import Text Http.
Local Open Scope string_scope.

Lemma xmlEscape_cons (x : ascii) (s : string) :
  xmlEscape (Some (String x s)) = entity x ++ xmlEscape (Some s).
Proof.
  unfold xmlEscape. destruct x as [[] [] [] [] [] [] [] []]; reflexivity.
Qed.

Lemma xmlEscape_entities (s : string) : xmlEscape (Some s) = entities s.
Proof.
  induction s as [|x s IH]; [reflexivity|].
  rewrite xmlEscape_cons, IH. reflexivity.
Qed.

(** The five replacements made one after the other amount to one pass
    that writes each character's entity: the ampersands of the entities
    written by the later replacements are not escaped again, because
    [&] is replaced first. *)
Theorem xmlEscape_single_pass (s : string) : xmlEscape (Some s) = entities s.
Proof. apply xmlEscape_entities. Qed.

Lemma list_ascii_of_string_app (s t : string) :
  list_ascii_of_string (s ++ t) = (list_ascii_of_string s ++ list_ascii_of_string t)%list.
Proof.
  induction s as [|x s IH]; [reflexivity|].
  change (x :: list_ascii_of_string (s ++ t)
          = x :: (list_ascii_of_string s ++ list_ascii_of_string t)%list).
  rewrite IH. reflexivity.
Qed.

Lemma entity_no_markup (x : ascii) :
  forallb (fun y => negb (isMarkup y)) (list_ascii_of_string (entity x)) = true.
Proof. destruct x as [[] [] [] [] [] [] [] []]; reflexivity. Qed.

(** The escaped text holds no [<], no [>] and no quote of either kind:
    put between double quotes, as [twimlHandler] puts the stream URL, it
    cannot end the attribute or open a tag. *)
Theorem xmlEscape_no_markup (str : option string) :
  forallb (fun y => negb (isMarkup y)) (list_ascii_of_string (xmlEscape str)) = true.
Proof.
  destruct str as [s|]; [|reflexivity].
  rewrite xmlEscape_entities.
  induction s as [|x s IH]; [reflexivity|].
  cbn [entities]. rewrite list_ascii_of_string_app, forallb_app, entity_no_markup, IH.
  reflexivity.
Qed.

(** The six shapes of an entity. *)
Lemma entity_cases (x : ascii) :
  (isMarkup x = false /\ x <> "&"%char /\ entity x = String x EmptyString) \/
  (x = "&"%char /\ entity x = "&amp;") \/
  (x = "<"%char /\ entity x = "&lt;") \/
  (x = ">"%char /\ entity x = "&gt;") \/
  (x = doubleQuote /\ entity x = "&quot;") \/
  (x = "'"%char /\ entity x = "&apos;").
Proof.
  destruct x as [[] [] [] [] [] [] [] []];
    first [ left; split; [reflexivity|split; [discriminate|reflexivity]]
          | right; left; split; reflexivity
          | right; right; left; split; reflexivity
          | right; right; right; left; split; reflexivity
          | right; right; right; right; left; split; reflexivity
          | right; right; right; right; right; split; reflexivity ].
Qed.

Lemma entities_inj (s : string) : forall t, entities s = entities t -> s = t.
Proof.
  induction s as [|x s IH]; intros [|y t] H.
  - reflexivity.
  - exfalso. cbn [entities] in H.
    destruct (entity_cases y) as [(_ & _ & E)|[(_ & E)|[(_ & E)|[(_ & E)|[(_ & E)|(_ & E)]]]]];
      rewrite E in H; discriminate.
  - exfalso. cbn [entities] in H.
    destruct (entity_cases x) as [(_ & _ & E)|[(_ & E)|[(_ & E)|[(_ & E)|[(_ & E)|(_ & E)]]]]];
      rewrite E in H; discriminate.
  - cbn [entities] in H.
    destruct (entity_cases x)
      as [(Mx & Ax & Ex)|[(-> & Ex)|[(-> & Ex)|[(-> & Ex)|[(-> & Ex)|(-> & Ex)]]]]];
    destruct (entity_cases y)
      as [(My & Ay & Ey)|[(-> & Ey)|[(-> & Ey)|[(-> & Ey)|[(-> & Ey)|(-> & Ey)]]]]];
    rewrite ?Ex, ?Ey in H; cbv beta iota delta [String.append] in H;
    inversion H; subst;
    first [congruence | f_equal; apply IH; assumption].
Qed.

(** Escaping loses nothing: two texts with the same escaped form are the
    same text. *)
Theorem xmlEscape_injective (s t : string) :
  xmlEscape (Some s) = xmlEscape (Some t) -> s = t.
Proof. rewrite !xmlEscape_entities. apply entities_inj. Qed.

Lemma xmlEscape_injective_witness :
  xmlEscape (Some "ws://h/audio?leadName=Tom%20%26%20Co&leadPhone=%2B1555")
  = "ws://h/audio?leadName=Tom%20%26%20Co&amp;leadPhone=%2B1555" /\
  "ws://h/audio?leadName=Tom%20%26%20Co&leadPhone=%2B1555"
  = "ws://h/audio?leadName=Tom%20%26%20Co&leadPhone=%2B1555".
Proof.
  split; [reflexivity|].
  exact (xmlEscape_injective _ _ eq_refl).
Defined.

End EscapeFacts.

(** ** The table of calls and its endpoints *)

Module HttpFacts.
Import Text Classifier Server Runs Http.
Import ServerFacts RunFacts.
Local Open Scope string_scope.

(** *** [Map.prototype.get] and [Map.prototype.set] *)

Lemma mapGet_mapSet_eq {V} (k : string) (v : V) (m : list (string * V)) :
  mapGet k (mapSet k v m) = Some v.
Proof.
  induction m as [|[k' v'] m IH]; cbn [mapSet mapGet].
  - rewrite String.eqb_refl. reflexivity.
  - destruct (String.eqb k' k) eqn:E; cbn [mapGet].
    + rewrite String.eqb_refl. reflexivity.
    + rewrite E. exact IH.
Qed.

Lemma mapGet_mapSet_ne {V} (k k' : string) (v : V) (m : list (string * V)) :
  k' <> k -> mapGet k' (mapSet k v m) = mapGet k' m.
Proof.
  intros Hne. induction m as [|[k0 v0] m IH]; cbn [mapSet mapGet].
  - destruct (String.eqb k k') eqn:E; [|reflexivity].
    apply String.eqb_eq in E. congruence.
  - destruct (String.eqb k0 k) eqn:E; cbn [mapGet].
    + apply String.eqb_eq in E. subst k0.
      destruct (String.eqb k k') eqn:E'; [|reflexivity].
      apply String.eqb_eq in E'. congruence.
    + rewrite IH. reflexivity.
Qed.

Lemma mapGet_in {V} (k : string) (m : list (string * V)) :
  is_Some (mapGet k m) <-> In k (List.map fst m).
Proof.
  induction m as [|[k' v'] m IH]; cbn [mapGet List.map fst In].
  - split; [intros [x Hx]; discriminate|tauto].
  - destruct (String.eqb k' k) eqn:E.
    + apply String.eqb_eq in E. split; [auto|eauto].
    + apply String.eqb_neq in E. rewrite IH. tauto.
Qed.

Lemma mapSet_keys {V} (k : string) (v : V) (m : list (string * V)) :
  List.map fst (mapSet k v m)
  = match mapGet k m with
    | Some _ => List.map fst m
    | None => (List.map fst m ++ [k])%list
    end.
Proof.
  induction m as [|[k' v'] m IH]; cbn [mapSet mapGet List.map fst]; [reflexivity|].
  destruct (String.eqb k' k) eqn:E; cbn [List.map fst].
  - apply String.eqb_eq in E. subst. reflexivity.
  - rewrite IH. destruct (mapGet k m); reflexivity.
Qed.

(** *** Rows of [/calls-status] *)

(** The row of a call: the fields of its object other than [outcome],
    and the outcome the media-stream handlers stored for it. *)
Lemma rowOf_spec (app : App) (sid : string) :
  rowOf app sid
  = (fun c => {| rowSid := sid; rowStatus := callStatus c; rowTo := callTo c;
                 rowLeadId := callLeadId c;
                 rowOutcome := match calls (server app) !! sid with
                               | Some e => entryOutcome e
                               | None => None
                               end |}) <$> mapGet sid (callInfo app).
Proof.
  unfold rowOf, callsStatus.
  induction (callInfo app) as [|[k c] m IH]; cbn [List.map List.find mapGet fst snd rowSid];
    [reflexivity|].
  destruct (String.eqb k sid) eqn:E; [|exact IH].
  apply String.eqb_eq in E. subst k. reflexivity.
Qed.

Lemma callsStatus_sids (app : App) :
  List.map rowSid (callsStatus app) = List.map fst (callInfo app).
Proof.
  unfold callsStatus. rewrite List.map_map. reflexivity.
Qed.

(** A status webhook for a call that has a row changes the status of
    that row, and its [to] when the webhook carries one; the lead id and
    the outcome stored for the call stay, every other row stays, and so
    does the order of the rows. *)
Theorem status_hook_keeps_outcome (body : StatusBody) (now : string) (app : App)
    (sid : string) (r : StatusRow) :
  bodyCallSid body = Some sid ->
  truthy sid = true ->
  rowOf app sid = Some r ->
  snd (callStatusHook body now app) = StatusAccepted /\
  rowOf (fst (callStatusHook body now app)) sid
    = Some {| rowSid := sid; rowStatus := bodyCallStatus body;
              rowTo := if truthyOpt (bodyTo body) then bodyTo body else rowTo r;
              rowLeadId := rowLeadId r; rowOutcome := rowOutcome r |} /\
  (forall sid', sid' <> sid ->
     rowOf (fst (callStatusHook body now app)) sid' = rowOf app sid') /\
  List.map rowSid (callsStatus (fst (callStatusHook body now app)))
    = List.map rowSid (callsStatus app).
Proof.
  intros Hsid Htr Hrow. unfold callStatusHook. rewrite Hsid. cbn [truthyOpt]. rewrite Htr.
  cbv zeta. cbn [fst snd]. split; [reflexivity|].
  rewrite rowOf_spec in Hrow.
  destruct (mapGet sid (callInfo app)) as [c|] eqn:Ec; [|discriminate].
  cbn in Hrow. injection Hrow as <-. cbn [default rowTo rowLeadId rowOutcome].
  split; [|split].
  - rewrite rowOf_spec. cbn [callInfo server]. rewrite mapGet_mapSet_eq.
    cbn [fmap option_fmap option_map callStatus callTo callLeadId]. f_equal. f_equal.
    destruct (calls (server app) !! sid) as [e|] eqn:Ee; [rewrite Ee; reflexivity|].
    cbn [calls setCalls]. rewrite lookup_insert_eq. reflexivity.
  - intros sid' Hne. rewrite !rowOf_spec. cbn [callInfo server].
    rewrite mapGet_mapSet_ne by assumption.
    destruct (calls (server app) !! sid) as [e|] eqn:Ee; [reflexivity|].
    cbn [calls setCalls]. rewrite lookup_insert_ne by congruence. reflexivity.
  - rewrite !callsStatus_sids. cbn [callInfo]. rewrite mapSet_keys, Ec. reflexivity.
Qed.

Lemma status_hook_keeps_outcome_witness :
  rowOf demoCall "CA1"
    = Some {| rowSid := "CA1"; rowStatus := Some "initiated";
              rowTo := Some "+15550100"; rowLeadId := Some (Some 0%Z);
              rowOutcome := None |} /\
  rowOf (fst (callStatusHook
                {| bodyCallSid := Some "CA1"; bodyCallStatus := Some "in-progress";
                   bodyTo := None; bodyFrom := None |}
                "2025-01-01T10:00:05.000Z" demoCall)) "CA1"
    = Some {| rowSid := "CA1"; rowStatus := Some "in-progress";
              rowTo := Some "+15550100"; rowLeadId := Some (Some 0%Z);
              rowOutcome := None |}.
Proof.
  assert (H : rowOf demoCall "CA1"
    = Some {| rowSid := "CA1"; rowStatus := Some "initiated";
              rowTo := Some "+15550100"; rowLeadId := Some (Some 0%Z);
              rowOutcome := None |}) by (vm_compute; reflexivity).
  split; [exact H|].
  exact (proj1 (proj2 (status_hook_keeps_outcome
           {| bodyCallSid := Some "CA1"; bodyCallStatus := Some "in-progress";
              bodyTo := None; bodyFrom := None |}
           "2025-01-01T10:00:05.000Z" demoCall "CA1" _ eq_refl eq_refl H))).
Defined.

(** *** The outcome column *)

(** The media streams write the table of calls in one place only: the
    step that classifies a reply for a session whose call sid is already
    in the table. *)
Lemma calls_after_step (sv : State) (ev : Event) (c : string) :
  calls (step sv ev) !! c = calls sv !! c \/
  is_Some (calls sv !! c) /\
  exists i sid u text s,
    ev = EResolve i (RAI (Resolved text)) /\
    tasks sv !! i = Some (TurnAwaitAI sid u) /\
    heap sv !! sid = Some s /\ callSid s = Some c /\
    type (analyzeOutcome u text) <> None /\
    calls (step sv ev) !! c = Some {| entryOutcome := Some (analyzeOutcome u text) |}.
Proof.
  destruct ev as [x n p|x ss cs|x p|x rs|x|x t f|i r]; cbn [step].
  - left. unfold onConnection. repeat break_match; reflexivity.
  - left. unfold onStart. repeat break_match; reflexivity.
  - left. unfold onMedia. repeat break_match; reflexivity.
  - left. unfold onStop. repeat break_match; reflexivity.
  - left. unfold onClose. repeat break_match; reflexivity.
  - left. unfold onSttData. repeat break_match; reflexivity.
  - unfold resume.
    destruct (tasks sv !! i) as [[|sid u|sid|sid job|sid|sid job|sid|sid job]|] eqn:Ei;
      destruct r as [[text|]|[audio|]|sink]; try (left; reflexivity).
    + proj_simpl. unfold storeOutcome.
      destruct (type (analyzeOutcome u text)) as [k|] eqn:Ek; [|left; reflexivity].
      cbv zeta. destruct (heap sv !! sid) as [s|] eqn:Es; [|left; reflexivity].
      destruct (callSid s) as [c0|] eqn:Ec; [|left; reflexivity].
      destruct (truthy c0 && bool_decide (is_Some (calls sv !! c0))) eqn:Eg;
        [|left; reflexivity].
      proj_simpl. destruct (decide (c0 = c)) as [->|Hne].
      * right. apply andb_prop in Eg as [_ Eg]. apply bool_decide_eq_true in Eg.
        split; [exact Eg|]. exists i, sid, u, text, s.
        repeat split; try assumption; try reflexivity.
        -- rewrite Ek. discriminate.
        -- apply lookup_insert_eq.
      * left. apply lookup_insert_ne. assumption.
    + left. destruct (sessions_get sv sid); reflexivity.
Qed.

Section Served.
Variable TWILIO_CALLER_NUMBER : string.

Lemma serve_snoc (app : App) (rqs : list Request) (rq : Request) :
  serve TWILIO_CALLER_NUMBER app (rqs ++ [rq])%list
  = fst (handle TWILIO_CALLER_NUMBER (serve TWILIO_CALLER_NUMBER app rqs) rq).
Proof. unfold serve. rewrite List.fold_left_app. reflexivity. Qed.

Lemma served_ind (P : App -> Prop) :
  P appInitial ->
  (forall app rq, P app -> P (fst (handle TWILIO_CALLER_NUMBER app rq))) ->
  forall app, served TWILIO_CALLER_NUMBER app -> P app.
Proof.
  intros H0 Hstep app [rqs ->].
  induction rqs as [|rq rqs IH] using List.rev_ind; [exact H0|].
  rewrite serve_snoc. apply Hstep. exact IH.
Qed.

(** What holds of the table of calls whatever requests were served: the
    rows and the outcome column are about the same sids, and a stored
    outcome is a verdict of the classifier that has a kind. *)
Lemma served_table (app : App) :
  served TWILIO_CALLER_NUMBER app ->
  (forall c, is_Some (mapGet c (callInfo app)) <-> is_Some (calls (server app) !! c)) /\
  (forall c e o, calls (server app) !! c = Some e -> entryOutcome e = Some o ->
     type o <> None /\ exists u reply, o = analyzeOutcome u reply).
Proof.
  revert app.
  apply (served_ind (fun app =>
    (forall c, is_Some (mapGet c (callInfo app)) <-> is_Some (calls (server app) !! c)) /\
    (forall c e o, calls (server app) !! c = Some e -> entryOutcome e = Some o ->
       type o <> None /\ exists u reply, o = analyzeOutcome u reply))).
  - split.
    + intros c. cbn. rewrite lookup_empty. split; intros [x Hx]; discriminate.
    + intros c e o H. cbn in H. rewrite lookup_empty in H. discriminate.
  - intros app rq [Hdom Hout].
    assert (Hins : forall sid,
              (forall c, is_Some (mapGet c (callInfo app)) \/ c = sid <->
                         is_Some (<[sid := {| entryOutcome := None |}]>
                                    (calls (server app)) !! c)) /\
              (forall c e o,
                 <[sid := {| entryOutcome := None |}]> (calls (server app)) !! c = Some e ->
                 entryOutcome e = Some o ->
                 type o <> None /\ exists u reply, o = analyzeOutcome u reply)).
    { intros sid. split.
      - intros c. destruct (decide (sid = c)) as [->|Hne].
        + rewrite lookup_insert_eq. split; eauto.
        + rewrite lookup_insert_ne by assumption. rewrite <- Hdom.
          split; [intros [H|H]; [exact H|congruence]|auto].
      - intros c e o. destruct (decide (sid = c)) as [->|Hne].
        + rewrite lookup_insert_eq. intros [= <-]. discriminate.
        + rewrite lookup_insert_ne by assumption. apply Hout. }
    assert (Hset : forall sid (v : CallInfo) c,
              is_Some (mapGet c (mapSet sid v (callInfo app))) <->
              is_Some (mapGet c (callInfo app)) \/ c = sid).
    { intros sid v c. destruct (decide (c = sid)) as [->|Hne].
      - rewrite mapGet_mapSet_eq. split; eauto.
      - rewrite mapGet_mapSet_ne by assumption.
        split; [auto|intros [H|H]; [exact H|congruence]]. }
    destruct rq as [name phone leadId call now|body now| |ev]; cbn [handle fst snd].
    + unfold startCall.
      destruct (negb (truthyOpt name) || negb (truthyOpt phone)); [split; assumption|].
      destruct call as [sid|]; [|split; assumption].
      cbn [fst server callInfo calls setCalls]. destruct (Hins sid) as [Hd Ho].
      split; [|exact Ho]. intros c. rewrite Hset. apply Hd.
    + unfold callStatusHook.
      destruct (truthyOpt (bodyCallSid body)); [|split; assumption].
      destruct (bodyCallSid body) as [sid|]; [|split; assumption].
      cbv zeta. cbn [fst server callInfo]. destruct (Hins sid) as [Hd Ho].
      destruct (calls (server app) !! sid) as [e|] eqn:Ee.
      * split; [|exact Hout]. intros c. rewrite Hset, <- Hdom.
        destruct (decide (c = sid)) as [->|Hne]; [|tauto].
        assert (is_Some (mapGet sid (callInfo app))) by (apply Hdom; eauto). tauto.
      * cbn [calls setCalls]. split; [|exact Ho]. intros c. rewrite Hset. apply Hd.
    + split; assumption.
    + cbn [server callInfo]. split.
      * intros c. rewrite Hdom.
        destruct (calls_after_step (server app) ev c) as [->|[Hs (i & sid & u & text & s & _ & _ & _ & _ & _ & ->)]];
          [tauto|]. split; eauto.
      * intros c e o He Ho.
        destruct (calls_after_step (server app) ev c)
          as [E|[Hs (i & sid & u & text & s & _ & _ & _ & _ & Hty & E)]];
          rewrite E in He.
        -- apply (Hout c e o He Ho).
        -- injection He as <-. cbn in Ho. injection Ho as <-. eauto.
Qed.

(** The array [/calls-status] returns never carries an outcome without a
    kind: whatever requests and stream events the process has served, an
    outcome in a row is a verdict of the classifier of kind [scheduled],
    [hangup] or [irrelevant]. *)
Theorem reported_outcome_has_kind (app : App) (sid : string) (r : StatusRow)
    (o : Outcome) :
  served TWILIO_CALLER_NUMBER app ->
  rowOf app sid = Some r ->
  rowOutcome r = Some o ->
  type o <> None /\ exists u reply, o = analyzeOutcome u reply.
Proof.
  intros Hs Hrow Ho. destruct (served_table app Hs) as [_ Hout].
  rewrite rowOf_spec in Hrow.
  destruct (mapGet sid (callInfo app)) as [c|]; [|discriminate].
  cbn in Hrow. injection Hrow as <-. cbn in Ho.
  destruct (calls (server app) !! sid) as [e|] eqn:Ee; [|discriminate].
  apply (Hout sid e o Ee Ho).
Qed.


End Served.

Lemma reported_outcome_has_kind_witness :
  served "+15550199"
    (fst (handle "+15550199" demoCall
            (Stream (EResolve 1 (RAI (Resolved "Great, see you then. HANGUP")))))) /\
  bookedOutcome.(type) <> None /\
  exists u reply, bookedOutcome = analyzeOutcome u reply.
Proof.
  assert (Hs : served "+15550199"
    (fst (handle "+15550199" demoCall
            (Stream (EResolve 1 (RAI (Resolved "Great, see you then. HANGUP"))))))).
  { exists (demoCallRequests
            ++ [Stream (EResolve 1 (RAI (Resolved "Great, see you then. HANGUP")))])%list.
    rewrite serve_snoc. reflexivity. }
  split; [exact Hs|].
  exact (reported_outcome_has_kind "+15550199" _ "CA1"
           {| rowSid := "CA1"; rowStatus := Some "initiated";
              rowTo := Some "+15550100"; rowLeadId := Some (Some 0%Z);
              rowOutcome := Some bookedOutcome |}
           bookedOutcome Hs ltac:(vm_compute; reflexivity) eq_refl).
Defined.


End HttpFacts.

(** ** The dialer page *)

Module FrontendFacts.
Import Text Classifier Server Formats Http Frontend.
Import ClassifierMore HttpFacts.
Local Open Scope string_scope.

Lemma startsWith_app (p s : string) : startsWith (p ++ s) p = true.
Proof.
  induction p as [|c p IH]; [destruct s; reflexivity|].
  change (Ascii.eqb c c && startsWith (p ++ s) p = true).
  rewrite Ascii.eqb_refl, IH. reflexivity.
Qed.

Lemma includes_prefix (p s : string) : includes (p ++ s) p = true.
Proof.
  destruct (p ++ s) eqn:E; cbn [includes]; rewrite <- E, startsWith_app; reflexivity.
Qed.

Lemma polled_terminal (l : Lead) (term : string) :
  In term terminalTerms -> includes (status l) term = true -> polled l = false.
Proof.
  intros Hin Hinc. unfold polled.
  replace (existsb (fun term => includes (status l) term) terminalTerms) with true.
  - apply andb_false_r.
  - symmetry. apply existsb_exists. exists term. split; assumption.
Qed.

(** What the poll makes of a lead whose row carries a verdict of the
    classifier that has a kind. *)
Lemma updateLead_verdict (data : list StatusRow) (l : Lead) (sid : string)
    (entry : StatusRow) (u reply : string) :
  callSid l = Some sid ->
  truthy sid = true ->
  List.find (fun d => String.eqb (rowSid d) sid) data = Some entry ->
  rowOutcome entry = Some (analyzeOutcome u reply) ->
  type (analyzeOutcome u reply) <> None ->
  label (updateLead data l) = type (analyzeOutcome u reply) /\
  polled (updateLead data l) = false.
Proof.
  intros Hsid Htr Hfind Hout Hty.
  destruct (analyzeOutcome_table u reply) as (_ & _ & Hd).
  unfold updateLead. rewrite Hsid, Htr. cbn [negb]. rewrite Hfind. cbv zeta. rewrite Hout.
  destruct (type (analyzeOutcome u reply)) as [[| |]|] eqn:Ety; [| | |congruence];
    cbn [fst snd label].
  - destruct Hd as (d & Hdet & _ & _ & Hne). rewrite Hdet. cbn [truthyOpt default].
    assert (Htd : truthy d = true) by (destruct d; [congruence|reflexivity]).
    rewrite Htd. split; [reflexivity|].
    apply (polled_terminal _ "📅"); [cbn; tauto|].
    exact (includes_prefix "📅" (" " ++ d)).
  - split; [reflexivity|]. apply (polled_terminal _ "📞"); [cbn; tauto|reflexivity].
  - split; [reflexivity|]. apply (polled_terminal _ "❌"); [cbn; tauto|reflexivity].
Qed.

(** Once [/calls-status] reports an outcome for a lead's call, one poll
    settles the lead: it gets the kind of the verdict as its label and a
    status that ends the polling for it -- for [scheduled] too, because
    the classifier never reports [scheduled] with empty details. *)
Theorem reported_outcome_ends_polling (TWILIO_CALLER_NUMBER : string) (app : App)
    (l : Lead) (sid : string) (r : StatusRow) (o : Outcome) :
  served TWILIO_CALLER_NUMBER app ->
  callSid l = Some sid ->
  truthy sid = true ->
  rowOf app sid = Some r ->
  rowOutcome r = Some o ->
  label (updateLead (callsStatus app) l) = type o /\
  type o <> None /\
  polled (updateLead (callsStatus app) l) = false.
Proof.
  intros Hs Hsid Htr Hrow Ho.
  destruct (served_table TWILIO_CALLER_NUMBER app Hs) as [_ Hout].
  assert (Hv : type o <> None /\ exists u reply, o = analyzeOutcome u reply).
  { rewrite rowOf_spec in Hrow.
    destruct (mapGet sid (callInfo app)) as [c|]; [|discriminate].
    cbn in Hrow. injection Hrow as <-. cbn in Ho.
    destruct (calls (server app) !! sid) as [e|] eqn:Ee; [|discriminate].
    apply (Hout sid e o Ee Ho). }
  destruct Hv as [Hty (u & reply & ->)].
  destruct (updateLead_verdict (callsStatus app) l sid r u reply Hsid Htr Hrow Ho Hty)
    as [Hl Hp].
  split; [exact Hl|]. split; [exact Hty|exact Hp].
Qed.

Lemma reported_outcome_ends_polling_witness :
  label (updateLead
           (callsStatus
              (fst (handle "+15550199" demoCall
                      (Stream (EResolve 1 (RAI (Resolved "Great, see you then. HANGUP")))))))
           demoLead) = Some scheduled /\
  polled (updateLead
            (callsStatus
               (fst (handle "+15550199" demoCall
                       (Stream (EResolve 1 (RAI (Resolved "Great, see you then. HANGUP")))))))
            demoLead) = false.
Proof.
  assert (Hs : served "+15550199"
    (fst (handle "+15550199" demoCall
            (Stream (EResolve 1 (RAI (Resolved "Great, see you then. HANGUP"))))))).
  { exists (demoCallRequests
            ++ [Stream (EResolve 1 (RAI (Resolved "Great, see you then. HANGUP")))])%list.
    rewrite serve_snoc. reflexivity. }
  pose proof (reported_outcome_ends_polling "+15550199" _ demoLead "CA1"
                {| rowSid := "CA1"; rowStatus := Some "initiated";
                   rowTo := Some "+15550100"; rowLeadId := Some (Some 0%Z);
                   rowOutcome := Some bookedOutcome |}
                bookedOutcome Hs eq_refl eq_refl ltac:(vm_compute; reflexivity) eq_refl)
    as (Hl & _ & Hp).
  split; [exact Hl|exact Hp].
Defined.

(** *** Loading the leads *)

Lemma split_length (c : ascii) (s : string) :
  length (split c s) = S (occurrences c s).
Proof.
  induction s as [|x s IH]; [reflexivity|]. cbn [split occurrences].
  destruct (Ascii.eqb x c).
  - cbn [length]. rewrite IH. reflexivity.
  - destruct (split c s) as [|w ws]; [discriminate|]. cbn [length] in *. lia.
Qed.

Lemma cellOr_truthy (cell : option string) : truthy (cellOr cell) = true.
Proof.
  unfold cellOr. destruct cell as [v|]; [|reflexivity].
  destruct (truthy (trim v)) eqn:E; [exact E|reflexivity].
Qed.

Lemma parseRow_fresh (i : nat) (row : string) : freshLead (parseRow i row).
Proof.
  unfold freshLead, parseRow. cbn [status notes label callSid name company title phone].
  repeat split; apply cellOr_truthy.
Qed.

Lemma imap_ids (rows : list string) :
  forall n, List.map id (imap (fun i => parseRow (n + i)) rows) = seq n (length rows).
Proof.
  induction rows as [|row rows IH]; intros n; [reflexivity|].
  cbn [imap List.map length seq]. f_equal; [cbn; lia|].
  rewrite <- (IH (S n)). f_equal. apply imap_ext. intros i x _. cbn.
  f_equal. lia.
Qed.

Lemma imap_Forall {A B} (P : B -> Prop) (l : list A) :
  forall f : nat -> A -> B, (forall i x, P (f i x)) -> Forall P (imap f l).
Proof.
  induction l as [|x l IH]; intros f Hf; cbn [imap]; constructor; [apply Hf|].
  apply IH. intros i y. apply Hf.
Qed.

(** [handleLoadLeads] sets no leads when the text is blank. Otherwise it
    makes one lead per line of the trimmed text; their ids count up from
    0 in the order of the lines, so an id is the lead's position; every
    lead is [Pending], without label or call sid, none of its four fields
    is empty, and nothing is polled yet. *)
Theorem handleLoadLeads_rows (leadCsv : string) :
  match handleLoadLeads leadCsv with
  | None => trim leadCsv = EmptyString
  | Some leads =>
      trim leadCsv <> EmptyString /\
      length leads = S (occurrences "010" (trim leadCsv)) /\
      List.map id leads = seq 0 (length leads) /\
      Forall freshLead leads /\
      shouldPoll leads = false
  end.
Proof.
  unfold handleLoadLeads. cbv zeta.
  destruct (trim leadCsv) as [|c rest] eqn:E; cbn [truthy negb]; [reflexivity|].
  set (rows := split "010" (String c rest)).
  assert (Hfresh : Forall freshLead (imap parseRow rows))
    by (apply imap_Forall; intros i x; apply parseRow_fresh).
  split; [discriminate|]. split; [|split; [|split]].
  - rewrite length_imap. apply split_length.
  - rewrite length_imap. apply (imap_ids rows 0).
  - exact Hfresh.
  - unfold shouldPoll. induction Hfresh as [|l ls Hl _ IH]; [reflexivity|].
    cbn [existsb]. rewrite IH. destruct Hl as (_ & _ & _ & Hc & _).
    unfold polled. rewrite Hc. reflexivity.
Qed.

End FrontendFacts.
